(** * Reconstruction filters of appleseed: foundation/math/filter.h

    A shallow embedding of the 2D reconstruction filters (Box, Triangle,
    Gaussian, Mitchell-Netravali, Lanczos) and of the normalization
    estimator [compute_normalization_factor], followed by the properties
    established about them.

    The C++ classes are templates over a scalar type [T].  The embedding
    instantiates [T] with the real numbers extended by one element [Undef]:
    arithmetic is exact, and a division by zero does not return a number but
    [Undef], which every later operation propagates and every comparison
    answers with [false] (as the IEEE special values do).  A result [Fin r]
    therefore says that the computation divided by no zero and that its
    value, in exact arithmetic, is [r].  Rounding is not modelled there.

    The module [Binary64] instantiates [T] a second time, with IEEE binary64
    ([double]), for the code that uses arithmetic only (Filter2, Box,
    Triangle, Mitchell-Netravali and the estimator); there the operations
    round as the program's do.  [std::exp] and [std::sin] have no binary64
    counterpart here, so the Gaussian and Lanczos kernels are embedded over
    the exact scalars only. *)

From Stdlib Require Import Reals Lra Lia List Arith ZArith.
From Stdlib Require Floats Uint63.
Import ListNotations.

Open Scope R_scope.

(** ** The scalar type *)

Inductive T : Type :=
| Fin (r : R)
| Undef.

Arguments Fin r%_R.

Definition lift1 (op : R -> R) (a : T) : T :=
  match a with
  | Fin x => Fin (op x)
  | Undef => Undef
  end.

Definition lift2 (op : R -> R -> R) (a b : T) : T :=
  match a, b with
  | Fin x, Fin y => Fin (op x y)
  | _, _ => Undef
  end.

Definition Tadd : T -> T -> T := lift2 Rplus.
Definition Tsub : T -> T -> T := lift2 Rminus.
Definition Tmul : T -> T -> T := lift2 Rmult.
Definition Topp : T -> T := lift1 Ropp.

(** [a / b]: undefined when the divisor is zero. *)
Definition Tdiv (a b : T) : T :=
  match a, b with
  | Fin x, Fin y => if Req_dec_T y 0 then Undef else Fin (x / y)
  | _, _ => Undef
  end.

(** [a < b] and [a == b] as the conditions of [?:] and [if]. *)
Definition Tlt (a b : T) : bool :=
  match a, b with
  | Fin x, Fin y => if Rlt_dec x y then true else false
  | _, _ => false
  end.

Definition Teq (a b : T) : bool :=
  match a, b with
  | Fin x, Fin y => if Req_dec_T x y then true else false
  | _, _ => false
  end.

(** [std::abs], [std::exp], [std::sin]. *)
Definition Tabs : T -> T := lift1 Rabs.
Definition Texp : T -> T := lift1 exp.
Definition Tsin : T -> T := lift1 sin.

(** [static_cast<ValueType>(n)] for a [size_t] value [n]. *)
Definition static_cast (n : nat) : T := Fin (INR n).

(** Modelled from the spec: the constant [Pi] of foundation/math/scalar.h,
    which is not part of this unit; it is the number pi. *)
Definition Pi : R := PI.

Declare Scope T_scope.
Delimit Scope T_scope with T.
Bind Scope T_scope with T.

Notation "a + b" := (Tadd a b) : T_scope.
Notation "a - b" := (Tsub a b) : T_scope.
Notation "a * b" := (Tmul a b) : T_scope.
Notation "a / b" := (Tdiv a b) : T_scope.
Notation "- a" := (Topp a) : T_scope.
Notation "a <? b" := (Tlt a b) (at level 70) : T_scope.
Notation "a =? b" := (Teq a b) (at level 70) : T_scope.

(** Modelled from the spec: the two-component vector of
    foundation/math/vector.h, which is not part of this unit; the estimator
    reads its components [x] and [y]. *)
Module Vector2.

Record t : Type := make { x : T; y : T }.

End Vector2.

(** ** Filter2: the base class *)

Module Filter2.

Record t : Type := make {
  m_xradius : T;
  m_yradius : T;
  m_rcp_xradius : T;
  m_rcp_yradius : T
}.

Definition ctor (xradius yradius : T) : t :=
  {| m_xradius := xradius;
     m_yradius := yradius;
     m_rcp_xradius := (Fin 1 / xradius)%T;
     m_rcp_yradius := (Fin 1 / yradius)%T |}.

Definition get_xradius (f : t) : T := m_xradius f.

Definition get_yradius (f : t) : T := m_yradius f.

End Filter2.

(** ** BoxFilter2 *)

Module BoxFilter2.

Record t : Type := make { base : Filter2.t }.

Definition ctor (xradius yradius : T) : t :=
  {| base := Filter2.ctor xradius yradius |}.

Definition evaluate (f : t) (x y : T) : T := Fin 1.

End BoxFilter2.

(** ** TriangleFilter2 *)

Module TriangleFilter2.

Record t : Type := make { base : Filter2.t }.

Definition ctor (xradius yradius : T) : t :=
  {| base := Filter2.ctor xradius yradius |}.

Definition evaluate (f : t) (x y : T) : T :=
  let nx := (x * Filter2.m_rcp_xradius (base f))%T in
  let ny := (y * Filter2.m_rcp_yradius (base f))%T in
  ((Fin 1 - Tabs nx) * (Fin 1 - Tabs ny))%T.

End TriangleFilter2.

(** ** GaussianFilter2 *)

Module GaussianFilter2.

Definition gaussian (x alpha : T) : T := Texp ((- alpha) * x * x)%T.

Record t : Type := make {
  base : Filter2.t;
  m_alpha : T;
  m_shift : T
}.

Definition ctor (xradius yradius alpha : T) : t :=
  {| base := Filter2.ctor xradius yradius;
     m_alpha := alpha;
     m_shift := gaussian (Fin 1) alpha |}.

Definition evaluate (f : t) (x y : T) : T :=
  let nx := (x * Filter2.m_rcp_xradius (base f))%T in
  let ny := (y * Filter2.m_rcp_yradius (base f))%T in
  let fx := (gaussian nx (m_alpha f) - m_shift f)%T in
  let fy := (gaussian ny (m_alpha f) - m_shift f)%T in
  (fx * fy)%T.

End GaussianFilter2.

(** ** MitchellFilter2 *)

Module MitchellFilter2.

Record t : Type := make {
  base : Filter2.t;
  m_a3 : T; m_a2 : T; m_a0 : T;
  m_b3 : T; m_b2 : T; m_b1 : T; m_b0 : T
}.

Definition ctor (xradius yradius b c : T) : t :=
  {| base := Filter2.ctor xradius yradius;
     m_a3 := (Fin (1 / 6) * (Fin 12 - Fin 9 * b - Fin 6 * c))%T;
     m_a2 := (Fin (1 / 6) * (Fin (-18) + Fin 12 * b + Fin 6 * c))%T;
     m_a0 := (Fin (1 / 6) * (Fin 6 - Fin 2 * b))%T;
     m_b3 := (Fin (1 / 6) * (- b - Fin 6 * c))%T;
     m_b2 := (Fin (1 / 6) * (Fin 6 * b + Fin 30 * c))%T;
     m_b1 := (Fin (1 / 6) * (Fin (-12) * b - Fin 48 * c))%T;
     m_b0 := (Fin (1 / 6) * (Fin 8 * b + Fin 24 * c))%T |}.

Definition evaluate (f : t) (x y : T) : T :=
  let nx := (x * Filter2.m_rcp_xradius (base f))%T in
  let x1 := Tabs (nx + nx)%T in
  let x2 := (x1 * x1)%T in
  let x3 := (x2 * x1)%T in
  let fx :=
    if (x1 <? Fin 1)%T
    then (m_a3 f * x3 + m_a2 f * x2 + m_a0 f)%T
    else (m_b3 f * x3 + m_b2 f * x2 + m_b1 f * x1 + m_b0 f)%T in
  let ny := (y * Filter2.m_rcp_yradius (base f))%T in
  let y1 := Tabs (ny + ny)%T in
  let y2 := (y1 * y1)%T in
  let y3 := (y2 * y1)%T in
  let fy :=
    if (y1 <? Fin 1)%T
    then (m_a3 f * y3 + m_a2 f * y2 + m_a0 f)%T
    else (m_b3 f * y3 + m_b2 f * y2 + m_b1 f * y1 + m_b0 f)%T in
  (fx * fy)%T.

(** The private static helper, which no member calls. *)
Definition mitchell (x b c : T) : T :=
  let x1 := Tabs (x + x)%T in
  let x2 := (x1 * x1)%T in
  let x3 := (x2 * x1)%T in
  if (x1 <? Fin 1)%T
  then (Fin (1 / 6) * ((Fin 12 - Fin 9 * b - Fin 6 * c) * x3 +
                       (Fin (-18) + Fin 12 * b + Fin 6 * c) * x2 +
                       (Fin 6 - Fin 2 * b)))%T
  else (Fin (1 / 6) * ((- b - Fin 6 * c) * x3 +
                       (Fin 6 * b + Fin 30 * c) * x2 +
                       (Fin (-12) * b - Fin 48 * c) * x1 +
                       (Fin 8 * b + Fin 24 * c)))%T.

(** The two cubics of [evaluate] and the block it runs once per axis, named
    so that properties of one axis can be stated; [evaluate_per_axis] below
    shows that [evaluate] is the product of two such blocks. *)
Definition inner_cubic (f : t) (u : T) : T :=
  let u2 := (u * u)%T in
  let u3 := (u2 * u)%T in
  (m_a3 f * u3 + m_a2 f * u2 + m_a0 f)%T.

Definition outer_cubic (f : t) (u : T) : T :=
  let u2 := (u * u)%T in
  let u3 := (u2 * u)%T in
  (m_b3 f * u3 + m_b2 f * u2 + m_b1 f * u + m_b0 f)%T.

Definition per_axis (f : t) (n : T) : T :=
  let u := Tabs (n + n)%T in
  if (u <? Fin 1)%T then inner_cubic f u else outer_cubic f u.

End MitchellFilter2.

(** ** LanczosFilter2 *)

Module LanczosFilter2.

Definition sinc (x : T) : T := (Tsin x / x)%T.

Definition lanczos (x rcp_tau : T) : T :=
  let theta := (Fin Pi * x)%T in
  if (theta =? Fin 0)%T then Fin 1 else (sinc (theta * rcp_tau) * sinc theta)%T.

Record t : Type := make {
  base : Filter2.t;
  m_rcp_tau : T
}.

Definition ctor (xradius yradius tau : T) : t :=
  {| base := Filter2.ctor xradius yradius;
     m_rcp_tau := tau |}.

Definition evaluate (f : t) (x y : T) : T :=
  let nx := (x * Filter2.m_rcp_xradius (base f))%T in
  let ny := (y * Filter2.m_rcp_yradius (base f))%T in
  (lanczos nx (m_rcp_tau f) * lanczos ny (m_rcp_tau f))%T.

(** The kernel of one axis as the specification words it, with the window
    width [tau] itself as parameter: 1 at 0, else
    sinc(pi*n/tau) * sinc(pi*n). *)
Definition lanczos_spec (n tau : T) : T :=
  if (n =? Fin 0)%T then Fin 1
  else (sinc (Fin Pi * n / tau) * sinc (Fin Pi * n))%T.

End LanczosFilter2.

(** ** The interface the estimator requires of its template argument *)

Class Filter (F : Type) : Type := {
  get_xradius : F -> T;
  get_yradius : F -> T;
  evaluate : F -> T -> T -> T
}.

#[export] Instance BoxFilter2_Filter : Filter BoxFilter2.t := {|
  get_xradius f := Filter2.get_xradius (BoxFilter2.base f);
  get_yradius f := Filter2.get_yradius (BoxFilter2.base f);
  evaluate := BoxFilter2.evaluate
|}.

#[export] Instance TriangleFilter2_Filter : Filter TriangleFilter2.t := {|
  get_xradius f := Filter2.get_xradius (TriangleFilter2.base f);
  get_yradius f := Filter2.get_yradius (TriangleFilter2.base f);
  evaluate := TriangleFilter2.evaluate
|}.

#[export] Instance GaussianFilter2_Filter : Filter GaussianFilter2.t := {|
  get_xradius f := Filter2.get_xradius (GaussianFilter2.base f);
  get_yradius f := Filter2.get_yradius (GaussianFilter2.base f);
  evaluate := GaussianFilter2.evaluate
|}.

#[export] Instance MitchellFilter2_Filter : Filter MitchellFilter2.t := {|
  get_xradius f := Filter2.get_xradius (MitchellFilter2.base f);
  get_yradius f := Filter2.get_yradius (MitchellFilter2.base f);
  evaluate := MitchellFilter2.evaluate
|}.

#[export] Instance LanczosFilter2_Filter : Filter LanczosFilter2.t := {|
  get_xradius f := Filter2.get_xradius (LanczosFilter2.base f);
  get_yradius f := Filter2.get_yradius (LanczosFilter2.base f);
  evaluate := LanczosFilter2.evaluate
|}.

(** ** compute_normalization_factor *)

Definition Bases : list nat := [2%nat].

Definition default_sample_count : nat := 1024.

Section Estimator.

(** [hammersley_sequence<ValueType, 2>(bases, i, count)] of
    foundation/math/qmc.h, which is not part of this unit. *)
Variable hammersley_sequence : list nat -> nat -> nat -> Vector2.t.

Context {F : Type} {Filter_F : Filter F}.

(** The [for] loop: [remaining] iterations are left, [i] is the index of the
    next one, [result] the accumulator. *)
Fixpoint accumulate (filter : F) (xradius yradius : T) (sample_count : nat)
    (remaining i : nat) (result : T) : T :=
  match remaining with
  | O => result
  | S remaining' =>
      let s := hammersley_sequence Bases i sample_count in
      let p :=
        Vector2.make
          (xradius * (Fin 2 * Vector2.x s - Fin 1))%T
          (yradius * (Fin 2 * Vector2.y s - Fin 1))%T in
      accumulate filter xradius yradius sample_count remaining' (S i)
        (result + evaluate filter (Vector2.x p) (Vector2.y p))%T
  end.

Definition compute_normalization_factor (filter : F) (sample_count : nat) : T :=
  let xradius := get_xradius filter in
  let yradius := get_yradius filter in
  let result := Fin 0 in
  let result :=
    accumulate filter xradius yradius sample_count sample_count 0 result in
  let result := (result * (Fin 4 * xradius * yradius))%T in
  let result := (result / static_cast sample_count)%T in
  result.

(** The value of [result] when the final division is reached: the dividend
    of that division. *)
Definition scaled_sum (filter : F) (sample_count : nat) : T :=
  (accumulate filter (get_xradius filter) (get_yradius filter)
     sample_count sample_count 0 (Fin 0)
   * (Fin 4 * get_xradius filter * get_yradius filter))%T.

End Estimator.

(** Modelled from the spec: the low-discrepancy generator of
    foundation/math/qmc.h is not part of this unit.  The estimator draws the
    points of a Hammersley sequence with base 2, indexed from 0 to
    [count - 1], in the unit square: the first coordinate of point [input]
    is [input / count], the second is the radical inverse of [input] in the
    first base, which mirrors the digits of [input] about the radix point. *)
Fixpoint radical_inverse_digits (fuel base input : nat) (weight : R) : R :=
  match fuel with
  | O => 0
  | S fuel' =>
      INR (input mod base) * weight
      + radical_inverse_digits fuel' base (input / base) (weight / INR base)
  end.

Definition radical_inverse (base input : nat) : R :=
  radical_inverse_digits input base input (1 / INR base).

Definition hammersley_2d (bases : list nat) (input count : nat) : Vector2.t :=
  Vector2.make
    (static_cast input / static_cast count)%T
    (Fin (radical_inverse (hd 2%nat bases) input)).

(** ** The arithmetic-only code at T = double *)

Module Binary64.

Import PrimFloat.
Local Open Scope float_scope.

Module Vector2.

Record t : Type := make { x : float; y : float }.

End Vector2.

Module Filter2.

Record t : Type := make {
  m_xradius : float;
  m_yradius : float;
  m_rcp_xradius : float;
  m_rcp_yradius : float
}.

Definition ctor (xradius yradius : float) : t :=
  {| m_xradius := xradius;
     m_yradius := yradius;
     m_rcp_xradius := 1 / xradius;
     m_rcp_yradius := 1 / yradius |}.

Definition get_xradius (f : t) : float := m_xradius f.

Definition get_yradius (f : t) : float := m_yradius f.

End Filter2.

Module BoxFilter2.

Record t : Type := make { base : Filter2.t }.

Definition ctor (xradius yradius : float) : t :=
  {| base := Filter2.ctor xradius yradius |}.

Definition evaluate (f : t) (x y : float) : float := 1.

End BoxFilter2.

Module TriangleFilter2.

Record t : Type := make { base : Filter2.t }.

Definition ctor (xradius yradius : float) : t :=
  {| base := Filter2.ctor xradius yradius |}.

Definition evaluate (f : t) (x y : float) : float :=
  let nx := x * Filter2.m_rcp_xradius (base f) in
  let ny := y * Filter2.m_rcp_yradius (base f) in
  (1 - abs nx) * (1 - abs ny).

End TriangleFilter2.

Module MitchellFilter2.

Record t : Type := make {
  base : Filter2.t;
  m_a3 : float; m_a2 : float; m_a0 : float;
  m_b3 : float; m_b2 : float; m_b1 : float; m_b0 : float
}.

Definition ctor (xradius yradius b c : float) : t :=
  {| base := Filter2.ctor xradius yradius;
     m_a3 := (1 / 6) * (12 - 9 * b - 6 * c);
     m_a2 := (1 / 6) * (-18 + 12 * b + 6 * c);
     m_a0 := (1 / 6) * (6 - 2 * b);
     m_b3 := (1 / 6) * (- b - 6 * c);
     m_b2 := (1 / 6) * (6 * b + 30 * c);
     m_b1 := (1 / 6) * (-12 * b - 48 * c);
     m_b0 := (1 / 6) * (8 * b + 24 * c) |}.

Definition evaluate (f : t) (x y : float) : float :=
  let nx := x * Filter2.m_rcp_xradius (base f) in
  let x1 := abs (nx + nx) in
  let x2 := x1 * x1 in
  let x3 := x2 * x1 in
  let fx :=
    if x1 <? 1
    then m_a3 f * x3 + m_a2 f * x2 + m_a0 f
    else m_b3 f * x3 + m_b2 f * x2 + m_b1 f * x1 + m_b0 f in
  let ny := y * Filter2.m_rcp_yradius (base f) in
  let y1 := abs (ny + ny) in
  let y2 := y1 * y1 in
  let y3 := y2 * y1 in
  let fy :=
    if y1 <? 1
    then m_a3 f * y3 + m_a2 f * y2 + m_a0 f
    else m_b3 f * y3 + m_b2 f * y2 + m_b1 f * y1 + m_b0 f in
  fx * fy.

Definition mitchell (x b c : float) : float :=
  let x1 := abs (x + x) in
  let x2 := x1 * x1 in
  let x3 := x2 * x1 in
  if x1 <? 1
  then (1 / 6) * ((12 - 9 * b - 6 * c) * x3 +
                  (-18 + 12 * b + 6 * c) * x2 +
                  (6 - 2 * b))
  else (1 / 6) * ((- b - 6 * c) * x3 +
                  (6 * b + 30 * c) * x2 +
                  (-12 * b - 48 * c) * x1 +
                  (8 * b + 24 * c)).

(** The two cubics and the per-axis block of [evaluate], as over the exact
    scalars. *)
Definition inner_cubic (f : t) (u : float) : float :=
  let u2 := u * u in
  let u3 := u2 * u in
  m_a3 f * u3 + m_a2 f * u2 + m_a0 f.

Definition outer_cubic (f : t) (u : float) : float :=
  let u2 := u * u in
  let u3 := u2 * u in
  m_b3 f * u3 + m_b2 f * u2 + m_b1 f * u + m_b0 f.

Definition per_axis (f : t) (n : float) : float :=
  let u := abs (n + n) in
  if u <? 1 then inner_cubic f u else outer_cubic f u.

End MitchellFilter2.

(** [static_cast<double>(n)] for a [size_t] value [n] (below 2^63, where
    the 63-bit conversion is the identity). *)
Definition static_cast (n : nat) : float :=
  of_uint63 (Uint63.of_Z (Z.of_nat n)).

Section Estimator.

Variable hammersley_sequence : list nat -> nat -> nat -> Vector2.t.

(** The template argument [Filter], given by its three members. *)
Variable F : Type.
Variable get_xradius : F -> float.
Variable get_yradius : F -> float.
Variable evaluate : F -> float -> float -> float.

Fixpoint accumulate (filter : F) (xradius yradius : float) (sample_count : nat)
    (remaining i : nat) (result : float) : float :=
  match remaining with
  | O => result
  | S remaining' =>
      let s := hammersley_sequence Bases i sample_count in
      let p :=
        Vector2.make
          (xradius * (2 * Vector2.x s - 1))
          (yradius * (2 * Vector2.y s - 1)) in
      accumulate filter xradius yradius sample_count remaining' (S i)
        (result + evaluate filter (Vector2.x p) (Vector2.y p))
  end.

Definition compute_normalization_factor (filter : F) (sample_count : nat)
    : float :=
  let xradius := get_xradius filter in
  let yradius := get_yradius filter in
  let result := 0 in
  let result :=
    accumulate filter xradius yradius sample_count sample_count 0 result in
  let result := result * (4 * xradius * yradius) in
  let result := result / static_cast sample_count in
  result.

End Estimator.

(** [compute_normalization_factor] at [Filter = BoxFilter2<double>]. *)
Definition box_compute_normalization_factor
    (hammersley_sequence : list nat -> nat -> nat -> Vector2.t)
    (filter : BoxFilter2.t) (sample_count : nat) : float :=
  compute_normalization_factor hammersley_sequence BoxFilter2.t
    (fun f => Filter2.get_xradius (BoxFilter2.base f))
    (fun f => Filter2.get_yradius (BoxFilter2.base f))
    BoxFilter2.evaluate filter sample_count.

End Binary64.

(** Unfolds the per-axis definitions of Mitchell-Netravali down to the
    coefficients the constructor stores. *)
Ltac mitchell_unfold :=
  unfold MitchellFilter2.per_axis, MitchellFilter2.mitchell,
         MitchellFilter2.inner_cubic, MitchellFilter2.outer_cubic;
  cbn [MitchellFilter2.ctor MitchellFilter2.m_a3 MitchellFilter2.m_a2
       MitchellFilter2.m_a0 MitchellFilter2.m_b3 MitchellFilter2.m_b2
       MitchellFilter2.m_b1 MitchellFilter2.m_b0].

(** * Properties *)

(** ** Arithmetic of [T] *)

Lemma Tdiv_Fin (a b : R) : b <> 0 -> (Fin a / Fin b)%T = Fin (a / b).
Proof.
  intros Hb. unfold Tdiv. destruct (Req_dec_T b 0); [contradiction | reflexivity].
Qed.

Lemma Tdiv_zero (a : T) : (a / Fin 0)%T = Undef.
Proof.
  destruct a as [r |]; [| reflexivity].
  unfold Tdiv. destruct (Req_dec_T 0 0) as [_ | Hne];
    [reflexivity | exfalso; apply Hne; reflexivity].
Qed.

Lemma Teq_Fin_true (a b : R) : a = b -> (Fin a =? Fin b)%T = true.
Proof.
  intros Hab. unfold Teq. destruct (Req_dec_T a b); [reflexivity | contradiction].
Qed.

Lemma Teq_Fin_false (a b : R) : a <> b -> (Fin a =? Fin b)%T = false.
Proof.
  intros Hab. unfold Teq. destruct (Req_dec_T a b); [contradiction | reflexivity].
Qed.

(** A coordinate times the cached reciprocal of a non-zero radius is the
    coordinate divided by the radius. *)
Lemma normalize_coordinate (x r : R) :
  r <> 0 -> (Fin x * (Fin 1 / Fin r))%T = Fin (x / r).
Proof.
  intros Hr. rewrite Tdiv_Fin by assumption. simpl.
  f_equal. field. assumption.
Qed.

Lemma Tabs_opp (a : T) : Tabs (- a)%T = Tabs a.
Proof.
  destruct a as [r |]; simpl; [| reflexivity].
  now rewrite Rabs_Ropp.
Qed.

Lemma Tmul_opp_l (a b : T) : (- a * b)%T = (- (a * b))%T.
Proof.
  destruct a as [r |], b as [s |]; simpl; try reflexivity.
  f_equal. ring.
Qed.

Lemma Tmul_opp_r (a b : T) : (a * - b)%T = (- (a * b))%T.
Proof.
  destruct a as [r |], b as [s |]; simpl; try reflexivity.
  f_equal. ring.
Qed.

Lemma INR_positive (n : nat) : (1 <= n)%nat -> INR n <> 0.
Proof.
  intros Hn. apply not_0_INR. lia.
Qed.

(** The first points of the modelled sequence: the radical inverses of
    0, 1, 2, 3 in base 2 are 0, 1/2, 1/4, 3/4. *)
Example radical_inverse_base2 :
  radical_inverse 2 0 = 0 /\ radical_inverse 2 1 = 1 / 2
  /\ radical_inverse 2 2 = 1 / 4 /\ radical_inverse 2 3 = 3 / 4.
Proof.
  unfold radical_inverse. simpl. repeat split; lra.
Qed.

(** ** Radii accessors *)

(** C9: for each of the five kernels, [get_xradius] and [get_yradius] return
    the radii given to the constructor, unchanged, whatever the shape
    parameters; this holds for all radii, in particular for the valid
    (positive) ones. *)
Theorem radii_accessors_return_constructed_values :
  forall xradius yradius alpha b c tau : T,
    (get_xradius (BoxFilter2.ctor xradius yradius) = xradius
     /\ get_yradius (BoxFilter2.ctor xradius yradius) = yradius)
    /\ (get_xradius (TriangleFilter2.ctor xradius yradius) = xradius
        /\ get_yradius (TriangleFilter2.ctor xradius yradius) = yradius)
    /\ (get_xradius (GaussianFilter2.ctor xradius yradius alpha) = xradius
        /\ get_yradius (GaussianFilter2.ctor xradius yradius alpha) = yradius)
    /\ (get_xradius (MitchellFilter2.ctor xradius yradius b c) = xradius
        /\ get_yradius (MitchellFilter2.ctor xradius yradius b c) = yradius)
    /\ (get_xradius (LanczosFilter2.ctor xradius yradius tau) = xradius
        /\ get_yradius (LanczosFilter2.ctor xradius yradius tau) = yradius).
Proof.
  intros xradius yradius alpha b c tau.
  repeat split; reflexivity.
Qed.

(** ** Box *)

Lemma box_evaluate_one (f : BoxFilter2.t) (x y : T) :
  evaluate f x y = Fin 1.
Proof. reflexivity. Qed.

Section BoxEstimator.

Variable hammersley_sequence : list nat -> nat -> nat -> Vector2.t.

(** Every iteration adds 1 to the accumulator, wherever the sample lies. *)
Lemma box_accumulate (f : BoxFilter2.t) (xr yr : T) (count remaining : nat) :
  forall (i : nat) (r : R),
    accumulate hammersley_sequence f xr yr count remaining i (Fin r)
    = Fin (r + INR remaining).
Proof.
  induction remaining as [| k IH]; intros i r.
  - simpl. f_equal. ring.
  - cbn [accumulate]. rewrite box_evaluate_one.
    change (Fin r + Fin 1)%T with (Fin (r + 1)).
    rewrite IH, S_INR. f_equal. ring.
Qed.

(** The estimate of a box is the area of its support, for any positive
    sample count. *)
Lemma box_normalization_factor (xr yr : R) (sample_count : nat) :
  (1 <= sample_count)%nat ->
  compute_normalization_factor hammersley_sequence
    (BoxFilter2.ctor (Fin xr) (Fin yr)) sample_count
  = Fin (4 * xr * yr).
Proof.
  intros Hn. unfold compute_normalization_factor.
  rewrite box_accumulate. unfold static_cast.
  cbn [get_xradius get_yradius BoxFilter2_Filter Filter2.get_xradius
       Filter2.get_yradius Filter2.m_xradius Filter2.m_yradius
       BoxFilter2.base BoxFilter2.ctor Filter2.ctor Tmul lift2].
  rewrite Tdiv_Fin by (apply INR_positive; assumption).
  f_equal. field. apply INR_positive; assumption.
Qed.

End BoxEstimator.

(** C2: a box evaluates to 1 at every point, so in particular at every point
    of its support, boundary and origin included; and with both radii equal
    to 1 the estimator returns 4 for every sample count of at least 1,
    whatever the sample sequence. *)
Theorem box_evaluate_and_normalization :
  (forall (f : BoxFilter2.t) (x y : T), BoxFilter2.evaluate f x y = Fin 1)
  /\ (forall (hammersley_sequence : list nat -> nat -> nat -> Vector2.t)
             (sample_count : nat),
        (1 <= sample_count)%nat ->
        compute_normalization_factor hammersley_sequence
          (BoxFilter2.ctor (Fin 1) (Fin 1)) sample_count
        = Fin 4).
Proof.
  split.
  - intros f x y. reflexivity.
  - intros hs n Hn. rewrite box_normalization_factor by assumption.
    f_equal. ring.
Qed.

Lemma box_evaluate_and_normalization_witness :
  BoxFilter2.evaluate (BoxFilter2.ctor (Fin 1) (Fin 1)) (Fin 1) (Fin (-1)) = Fin 1
  /\ compute_normalization_factor hammersley_2d
       (BoxFilter2.ctor (Fin 1) (Fin 1)) 1 = Fin 4
  /\ compute_normalization_factor hammersley_2d
       (BoxFilter2.ctor (Fin 1) (Fin 1)) 16 = Fin 4
  /\ compute_normalization_factor hammersley_2d
       (BoxFilter2.ctor (Fin 1) (Fin 1)) default_sample_count = Fin 4.
Proof.
  destruct box_evaluate_and_normalization as [Hev Hnorm].
  split; [apply Hev |].
  split; [apply Hnorm; lia |].
  split; [apply Hnorm; lia |].
  apply Hnorm. unfold default_sample_count. lia.
Defined.

(** ** Triangle *)

Lemma triangle_evaluate_formula (xr yr x y : R) :
  xr <> 0 -> yr <> 0 ->
  TriangleFilter2.evaluate (TriangleFilter2.ctor (Fin xr) (Fin yr)) (Fin x) (Fin y)
  = Fin ((1 - Rabs (x / xr)) * (1 - Rabs (y / yr))).
Proof.
  intros Hx Hy. unfold TriangleFilter2.evaluate.
  cbn [TriangleFilter2.base TriangleFilter2.ctor Filter2.ctor
       Filter2.m_rcp_xradius Filter2.m_rcp_yradius].
  rewrite !normalize_coordinate by assumption. reflexivity.
Qed.

(** C5 (as amended): in exact arithmetic, with positive radii the triangle
    kernel is (1 - |x/xradius|) * (1 - |y/yradius|); it is 1 at the origin
    and 0 on the edge of either axis. *)
Theorem triangle_evaluate_separable_falloff :
  forall xr yr : R, 0 < xr -> 0 < yr ->
    let f := TriangleFilter2.ctor (Fin xr) (Fin yr) in
    (forall x y : R,
       TriangleFilter2.evaluate f (Fin x) (Fin y)
       = Fin ((1 - Rabs (x / xr)) * (1 - Rabs (y / yr))))
    /\ TriangleFilter2.evaluate f (Fin 0) (Fin 0) = Fin 1
    /\ (forall y : R, TriangleFilter2.evaluate f (Fin xr) (Fin y) = Fin 0)
    /\ (forall x : R, TriangleFilter2.evaluate f (Fin x) (Fin yr) = Fin 0).
Proof.
  intros xr yr Hxr Hyr f. subst f.
  assert (Hx : xr <> 0) by lra. assert (Hy : yr <> 0) by lra.
  repeat split; intros; rewrite triangle_evaluate_formula by assumption;
    try reflexivity; f_equal.
  - unfold Rdiv. rewrite !Rmult_0_l, Rabs_R0. ring.
  - replace (xr / xr) with 1 by (field; assumption).
    rewrite Rabs_R1. ring.
  - replace (yr / yr) with 1 by (field; assumption).
    rewrite Rabs_R1. ring.
Qed.

Lemma triangle_evaluate_separable_falloff_witness :
  TriangleFilter2.evaluate (TriangleFilter2.ctor (Fin 2) (Fin 4)) (Fin 1) (Fin (-1))
  = Fin ((1 - Rabs (1 / 2)) * (1 - Rabs (-1 / 4)))
  /\ TriangleFilter2.evaluate (TriangleFilter2.ctor (Fin 2) (Fin 4)) (Fin 2) (Fin 3)
     = Fin 0.
Proof.
  destruct (triangle_evaluate_separable_falloff 2 4 ltac:(lra) ltac:(lra))
    as (Hformula & _ & Hxedge & _).
  split; [apply Hformula | apply Hxedge].
Defined.

Section TriangleRounding.

Import PrimFloat.
Local Open Scope float_scope.

(** C5, counterexample: at T = double the kernel is not 0 on the edge.  The
    code multiplies by the cached reciprocal, and 49 * (1 / 49) rounds to
    1 - 2^-53, not to 1: with both radii 49, evaluate(49, 0) returns
    2^-53. *)
Lemma triangle_edge_binary64 :
  let f := Binary64.TriangleFilter2.ctor 49 49 in
  Binary64.Filter2.m_rcp_xradius (Binary64.TriangleFilter2.base f) = 1 / 49
  /\ 49 * (1 / 49) = 0x1.fffffffffffffp-1
  /\ Binary64.TriangleFilter2.evaluate f 49 0 = 0x1p-53
  /\ (Binary64.TriangleFilter2.evaluate f 49 0 =? 0) = false.
Proof.
  repeat split; vm_compute; reflexivity.
Qed.

End TriangleRounding.

(** ** Gaussian *)

Lemma gaussian_Fin (x alpha : R) :
  GaussianFilter2.gaussian (Fin x) (Fin alpha) = Fin (exp (- alpha * x * x)).
Proof. reflexivity. Qed.

Lemma gaussian_shift (xr yr : T) (alpha : R) :
  GaussianFilter2.m_shift (GaussianFilter2.ctor xr yr (Fin alpha))
  = Fin (exp (- alpha)).
Proof.
  cbn [GaussianFilter2.m_shift GaussianFilter2.ctor].
  rewrite gaussian_Fin. do 2 f_equal. ring.
Qed.

Lemma gaussian_evaluate_formula (xr yr alpha x y : R) :
  xr <> 0 -> yr <> 0 ->
  GaussianFilter2.evaluate (GaussianFilter2.ctor (Fin xr) (Fin yr) (Fin alpha))
    (Fin x) (Fin y)
  = Fin ((exp (- alpha * (x / xr) * (x / xr)) - exp (- alpha))
         * (exp (- alpha * (y / yr) * (y / yr)) - exp (- alpha))).
Proof.
  intros Hx Hy. unfold GaussianFilter2.evaluate.
  rewrite gaussian_shift.
  cbn [GaussianFilter2.base GaussianFilter2.m_alpha GaussianFilter2.ctor
       Filter2.ctor Filter2.m_rcp_xradius Filter2.m_rcp_yradius].
  rewrite !normalize_coordinate by assumption.
  rewrite !gaussian_Fin. reflexivity.
Qed.

(** In exact arithmetic: with positive radii and alpha > 0, the Gaussian
    kernel is 0 on the edge of either axis, because there the per-axis
    factor is gaussian(1, alpha) - shift; at the origin it is (1 - shift)^2,
    which is positive; the shift is exp(-alpha). *)
Lemma gaussian_edge_and_origin :
  forall xr yr alpha : R, 0 < xr -> 0 < yr -> 0 < alpha ->
    let f := GaussianFilter2.ctor (Fin xr) (Fin yr) (Fin alpha) in
    let shift := exp (- alpha) in
    GaussianFilter2.m_shift f = Fin shift
    /\ (GaussianFilter2.gaussian (Fin 1) (GaussianFilter2.m_alpha f)
        - GaussianFilter2.m_shift f)%T = Fin 0
    /\ (forall y : R, GaussianFilter2.evaluate f (Fin xr) (Fin y) = Fin 0)
    /\ (forall x : R, GaussianFilter2.evaluate f (Fin x) (Fin yr) = Fin 0)
    /\ GaussianFilter2.evaluate f (Fin 0) (Fin 0) = Fin ((1 - shift) ^ 2)
    /\ 0 < (1 - shift) ^ 2.
Proof.
  intros xr yr alpha Hxr Hyr Halpha f shift. subst f shift.
  assert (Hx : xr <> 0) by lra. assert (Hy : yr <> 0) by lra.
  split; [apply gaussian_shift |].
  split.
  { rewrite gaussian_shift. cbn [GaussianFilter2.m_alpha GaussianFilter2.ctor].
    rewrite gaussian_Fin. simpl. f_equal.
    replace (- alpha * 1 * 1) with (- alpha) by ring. ring. }
  split.
  { intros y. rewrite gaussian_evaluate_formula by assumption. f_equal.
    replace (- alpha * (xr / xr) * (xr / xr)) with (- alpha)
      by (field; assumption).
    ring. }
  split.
  { intros x. rewrite gaussian_evaluate_formula by assumption. f_equal.
    replace (- alpha * (yr / yr) * (yr / yr)) with (- alpha)
      by (field; assumption).
    ring. }
  split.
  { rewrite gaussian_evaluate_formula by assumption. f_equal.
    replace (- alpha * (0 / xr) * (0 / xr)) with 0 by (field; assumption).
    replace (- alpha * (0 / yr) * (0 / yr)) with 0 by (field; assumption).
    rewrite exp_0. ring. }
  assert (Hlt : exp (- alpha) < 1).
  { rewrite <- exp_0. apply exp_increasing. lra. }
  apply pow_lt. lra.
Qed.

Lemma gaussian_edge_and_origin_witness :
  GaussianFilter2.evaluate (GaussianFilter2.ctor (Fin 2) (Fin 3) (Fin 4))
    (Fin 2) (Fin 1) = Fin 0
  /\ GaussianFilter2.evaluate (GaussianFilter2.ctor (Fin 2) (Fin 3) (Fin 4))
       (Fin 0) (Fin 0) = Fin ((1 - exp (- 4)) ^ 2)
  /\ 0 < (1 - exp (- 4)) ^ 2.
Proof.
  destruct (gaussian_edge_and_origin 2 3 4 ltac:(lra) ltac:(lra) ltac:(lra))
    as (_ & _ & Hxedge & _ & Horigin & Hpos).
  split; [apply Hxedge |]. split; [exact Horigin | exact Hpos].
Defined.

(** ** Mitchell-Netravali *)

(** [evaluate] runs the same block on each axis and multiplies the results. *)
Lemma evaluate_per_axis (f : MitchellFilter2.t) (x y : T) :
  MitchellFilter2.evaluate f x y
  = (MitchellFilter2.per_axis f (x * Filter2.m_rcp_xradius (MitchellFilter2.base f))
     * MitchellFilter2.per_axis f (y * Filter2.m_rcp_yradius (MitchellFilter2.base f)))%T.
Proof. reflexivity. Qed.

Section MitchellBreakpoint.

Import PrimFloat.

(** C3 (as amended): in exact arithmetic, for all b and c, at the breakpoint
    u = 1 the inner cubic and the outer cubic built from the constructor's
    coefficients have the same value: a3 + a2 + a0 = b3 + b2 + b1 + b0, both
    being b/6.  At T = double the two values agree only within
    floating-point tolerance: for b = c = 1/3 they differ by less than
    2^-50. *)
Theorem mitchell_continuous_at_breakpoint :
  (forall (xradius yradius : T) (b c : R),
     let f := MitchellFilter2.ctor xradius yradius (Fin b) (Fin c) in
     (MitchellFilter2.m_a3 f + MitchellFilter2.m_a2 f + MitchellFilter2.m_a0 f)%T
     = Fin (b / 6)
     /\ (MitchellFilter2.m_b3 f + MitchellFilter2.m_b2 f
         + MitchellFilter2.m_b1 f + MitchellFilter2.m_b0 f)%T
        = Fin (b / 6)
     /\ MitchellFilter2.inner_cubic f (Fin 1) = Fin (b / 6)
     /\ MitchellFilter2.outer_cubic f (Fin 1) = Fin (b / 6)
     /\ MitchellFilter2.inner_cubic f (Fin 1)
        = MitchellFilter2.outer_cubic f (Fin 1))
  /\ (let f := Binary64.MitchellFilter2.ctor 1 1 (1 / 3) (1 / 3) in
      (abs (Binary64.MitchellFilter2.inner_cubic f 1
            - Binary64.MitchellFilter2.outer_cubic f 1)
       <=? 0x1p-50) = true)%float.
Proof.
  split; [| vm_compute; reflexivity].
  intros xradius yradius b c f. subst f.
  assert (Hin : MitchellFilter2.inner_cubic
                  (MitchellFilter2.ctor xradius yradius (Fin b) (Fin c)) (Fin 1)
                = Fin (b / 6)).
  { mitchell_unfold. simpl. f_equal. field. }
  assert (Hout : MitchellFilter2.outer_cubic
                   (MitchellFilter2.ctor xradius yradius (Fin b) (Fin c)) (Fin 1)
                 = Fin (b / 6)).
  { mitchell_unfold. simpl. f_equal. field. }
  split; [mitchell_unfold; simpl; f_equal; field |].
  split; [mitchell_unfold; simpl; f_equal; field |].
  split; [exact Hin |]. split; [exact Hout |].
  now rewrite Hin, Hout.
Qed.

End MitchellBreakpoint.

Section MitchellRounding.

Import PrimFloat.
Local Open Scope float_scope.

(** C3, counterexample: at T = double, with b = c = 1/3 (the double nearest
    to it), the coefficients stored by the constructor give
    a3 + a2 + a0 = 0.05555555555555536 and
    b3 + b2 + b1 + b0 = 0.0555555555555558: the two sums, which are the
    values of the two cubics at u = 1, differ, and neither is b/6. *)
Lemma mitchell_breakpoint_binary64 :
  let f := Binary64.MitchellFilter2.ctor 1 1 (1 / 3) (1 / 3) in
  let inner_sum :=
    Binary64.MitchellFilter2.m_a3 f + Binary64.MitchellFilter2.m_a2 f
    + Binary64.MitchellFilter2.m_a0 f in
  let outer_sum :=
    Binary64.MitchellFilter2.m_b3 f + Binary64.MitchellFilter2.m_b2 f
    + Binary64.MitchellFilter2.m_b1 f + Binary64.MitchellFilter2.m_b0 f in
  inner_sum = 0x1.c71c71c71c7p-5
  /\ outer_sum = 0x1.c71c71c71c74p-5
  /\ Binary64.MitchellFilter2.inner_cubic f 1 = inner_sum
  /\ Binary64.MitchellFilter2.outer_cubic f 1 = outer_sum
  /\ (inner_sum =? outer_sum) = false
  /\ (inner_sum =? 1 / 3 / 6) = false
  /\ (outer_sum =? 1 / 3 / 6) = false.
Proof.
  repeat split; vm_compute; reflexivity.
Qed.

(** C6, counterexample: at T = double the per-axis block of [evaluate] and
    the static helper round differently.  With b = c = 1/3 and the
    normalized coordinate 0.3 the block returns 0.4208888888888888 and
    [mitchell] returns 0.42088888888888876. *)
Lemma mitchell_helper_binary64 :
  let f := Binary64.MitchellFilter2.ctor 1 1 (1 / 3) (1 / 3) in
  let n := 0x1.3333333333333p-2 in
  Binary64.MitchellFilter2.per_axis f n = 0x1.aefd7f341c377p-2
  /\ Binary64.MitchellFilter2.mitchell n (1 / 3) (1 / 3) = 0x1.aefd7f341c376p-2
  /\ (Binary64.MitchellFilter2.per_axis f n
      =? Binary64.MitchellFilter2.mitchell n (1 / 3) (1 / 3)) = false.
Proof.
  repeat split; vm_compute; reflexivity.
Qed.

End MitchellRounding.

(** C6 (as amended): in exact arithmetic, the per-axis block of [evaluate],
    which uses the coefficients stored by the constructor, computes the
    same value as the static helper
    [mitchell]: for every normalized coordinate n and all b and c, with
    u = |2n|, (u < 1 ? a3*u^3 + a2*u^2 + a0 : b3*u^3 + b2*u^2 + b1*u + b0)
    equals mitchell(n, b, c); [evaluate] is thus the product of two calls of
    the helper on the normalized coordinates. *)
Theorem mitchell_per_axis_matches_static_helper :
  forall xradius yradius b c : T,
    let f := MitchellFilter2.ctor xradius yradius b c in
    (forall n : T,
       MitchellFilter2.per_axis f n = MitchellFilter2.mitchell n b c)
    /\ (forall n : T,
          (if (Tabs (n + n) <? Fin 1)%T
           then MitchellFilter2.inner_cubic f (Tabs (n + n))
           else MitchellFilter2.outer_cubic f (Tabs (n + n)))
          = MitchellFilter2.mitchell n b c)
    /\ (forall x y : T,
          MitchellFilter2.evaluate f x y
          = (MitchellFilter2.mitchell
               (x * Filter2.m_rcp_xradius (MitchellFilter2.base f)) b c
             * MitchellFilter2.mitchell
                 (y * Filter2.m_rcp_yradius (MitchellFilter2.base f)) b c)%T).
Proof.
  intros xradius yradius b c f. subst f.
  assert (Haxis : forall n : T,
            MitchellFilter2.per_axis (MitchellFilter2.ctor xradius yradius b c) n
            = MitchellFilter2.mitchell n b c).
  { intros n. mitchell_unfold.
    destruct n as [n |], b as [b |], c as [c |]; simpl; try reflexivity.
    destruct (Rlt_dec (Rabs (n + n)) 1); f_equal; field. }
  split; [exact Haxis |]. split; [exact Haxis |].
  intros x y. rewrite evaluate_per_axis. now rewrite !Haxis.
Qed.

(** ** Lanczos *)

Lemma sinc_Fin (t : R) :
  t <> 0 -> LanczosFilter2.sinc (Fin t) = Fin (sin t / t).
Proof.
  intros Ht. unfold LanczosFilter2.sinc. simpl Tsin.
  now apply Tdiv_Fin.
Qed.

Lemma sinc_opp (t : T) : LanczosFilter2.sinc (- t)%T = LanczosFilter2.sinc t.
Proof.
  destruct t as [t |]; [| reflexivity].
  unfold LanczosFilter2.sinc. simpl.
  destruct (Req_dec_T (- t) 0) as [Hz | Hnz], (Req_dec_T t 0) as [Hz' | Hnz'];
    try reflexivity; try (exfalso; lra).
  f_equal. rewrite sin_neg. field. assumption.
Qed.

Lemma lanczos_zero (rcp_tau : T) :
  LanczosFilter2.lanczos (Fin 0) rcp_tau = Fin 1.
Proof.
  unfold LanczosFilter2.lanczos. cbn [Tmul lift2].
  rewrite Teq_Fin_true by ring. reflexivity.
Qed.

Lemma lanczos_opp (n rcp_tau : T) :
  LanczosFilter2.lanczos (- n)%T rcp_tau = LanczosFilter2.lanczos n rcp_tau.
Proof.
  unfold LanczosFilter2.lanczos.
  rewrite Tmul_opp_r.
  destruct (Fin Pi * n)%T as [theta |]; [| reflexivity].
  assert (Hcond : (- Fin theta =? Fin 0)%T = (Fin theta =? Fin 0)%T).
  { simpl. destruct (Req_dec_T (- theta) 0), (Req_dec_T theta 0);
      try reflexivity; exfalso; lra. }
  rewrite Hcond, Tmul_opp_l, !sinc_opp. reflexivity.
Qed.

(** What the code computes on one axis away from 0: the second argument of
    [lanczos] multiplies the angle of the first [sinc]. *)
Lemma lanczos_Fin (n rcp_tau : R) :
  n <> 0 -> rcp_tau <> 0 ->
  LanczosFilter2.lanczos (Fin n) (Fin rcp_tau)
  = Fin (sin (PI * n * rcp_tau) / (PI * n * rcp_tau) * (sin (PI * n) / (PI * n))).
Proof.
  intros Hn Hr. unfold LanczosFilter2.lanczos, Pi. cbn [Tmul lift2].
  assert (Hpi : PI <> 0) by (pose proof PI_RGT_0; lra).
  assert (Htheta : PI * n <> 0) by (apply Rmult_integral_contrapositive_currified; assumption).
  rewrite Teq_Fin_false by assumption.
  rewrite !sinc_Fin; [reflexivity | assumption |].
  apply Rmult_integral_contrapositive_currified; assumption.
Qed.

Lemma lanczos_spec_Fin (n tau : R) :
  n <> 0 -> tau <> 0 ->
  LanczosFilter2.lanczos_spec (Fin n) (Fin tau)
  = Fin (sin (PI * n / tau) / (PI * n / tau) * (sin (PI * n) / (PI * n))).
Proof.
  intros Hn Ht. unfold LanczosFilter2.lanczos_spec, Pi.
  assert (Hpi : PI <> 0) by (pose proof PI_RGT_0; lra).
  assert (Htheta : PI * n <> 0) by (apply Rmult_integral_contrapositive_currified; assumption).
  rewrite Teq_Fin_false by assumption. cbn [Tmul lift2].
  rewrite Tdiv_Fin by assumption.
  rewrite !sinc_Fin; [reflexivity | assumption |].
  unfold Rdiv. apply Rmult_integral_contrapositive_currified;
    [assumption | apply Rinv_neq_0_compat; assumption].
Qed.

(** C7: with positive radii, the Lanczos kernel is exactly 1 at the origin,
    for every tau (so for every tau > 0): [lanczos] answers 1 at angle 0
    without calling [sinc], so the result is a number and no division by
    zero took place. *)
Theorem lanczos_evaluate_origin :
  forall (xr yr : R) (tau : T), 0 < xr -> 0 < yr ->
    LanczosFilter2.evaluate (LanczosFilter2.ctor (Fin xr) (Fin yr) tau)
      (Fin 0) (Fin 0)
    = Fin 1.
Proof.
  intros xr yr tau Hxr Hyr. unfold LanczosFilter2.evaluate.
  cbn [LanczosFilter2.base LanczosFilter2.m_rcp_tau LanczosFilter2.ctor
       Filter2.ctor Filter2.m_rcp_xradius Filter2.m_rcp_yradius].
  rewrite !normalize_coordinate by lra.
  replace (0 / xr) with 0 by (field; lra).
  replace (0 / yr) with 0 by (field; lra).
  rewrite !lanczos_zero. simpl. f_equal. ring.
Qed.

Lemma lanczos_evaluate_origin_witness :
  LanczosFilter2.evaluate (LanczosFilter2.ctor (Fin 2) (Fin 3) (Fin 3))
    (Fin 0) (Fin 0)
  = Fin 1.
Proof.
  apply lanczos_evaluate_origin; lra.
Defined.

(** ** Symmetry *)

(** C8: the Triangle and the Lanczos kernels are symmetric about each axis:
    evaluate(x, y) = evaluate(-x, y) = evaluate(x, -y), for every filter
    object (whatever its radii and tau) and all x, y. *)
Theorem triangle_lanczos_axis_symmetry :
  (forall (f : TriangleFilter2.t) (x y : T),
     TriangleFilter2.evaluate f x y = TriangleFilter2.evaluate f (- x)%T y
     /\ TriangleFilter2.evaluate f x y = TriangleFilter2.evaluate f x (- y)%T)
  /\ (forall (f : LanczosFilter2.t) (x y : T),
        LanczosFilter2.evaluate f x y = LanczosFilter2.evaluate f (- x)%T y
        /\ LanczosFilter2.evaluate f x y = LanczosFilter2.evaluate f x (- y)%T).
Proof.
  split; intros f x y.
  - unfold TriangleFilter2.evaluate.
    rewrite !Tmul_opp_l, !Tabs_opp. split; reflexivity.
  - unfold LanczosFilter2.evaluate.
    rewrite !Tmul_opp_l, !lanczos_opp. split; reflexivity.
Qed.

(** ** The window parameter of Lanczos *)

(** C1 (the code departs from it): the constructor stores [tau] itself in
    [m_rcp_tau], not its reciprocal, so that away from 0 the per-axis value
    is sinc(pi*n*tau) * sinc(pi*n).  With both radii 1 and tau = 2,
    [evaluate] at (1/2, 0) returns 0, where
    sinc(pi*n/tau) * sinc(pi*n) at n = 1/2 times the value 1 at n = 0 is
    positive. *)
Theorem lanczos_constructor_stores_tau_itself :
  (forall xradius yradius tau : T,
     LanczosFilter2.m_rcp_tau (LanczosFilter2.ctor xradius yradius tau) = tau)
  /\ (forall n tau : R, n <> 0 -> tau <> 0 ->
        LanczosFilter2.lanczos (Fin n)
          (LanczosFilter2.m_rcp_tau (LanczosFilter2.ctor (Fin 1) (Fin 1) (Fin tau)))
        = Fin (sin (PI * n * tau) / (PI * n * tau) * (sin (PI * n) / (PI * n))))
  /\ LanczosFilter2.evaluate (LanczosFilter2.ctor (Fin 1) (Fin 1) (Fin 2))
       (Fin (1 / 2)) (Fin 0)
     = Fin 0
  /\ (exists v : R,
        (LanczosFilter2.lanczos_spec (Fin (1 / 2) / Fin 1) (Fin 2)
         * LanczosFilter2.lanczos_spec (Fin 0 / Fin 1) (Fin 2))%T = Fin v
        /\ 0 < v).
Proof.
  pose proof PI_RGT_0 as Hpi.
  split; [reflexivity |].
  split; [intros n tau Hn Ht; now apply lanczos_Fin |].
  split.
  - unfold LanczosFilter2.evaluate.
    cbn [LanczosFilter2.base LanczosFilter2.m_rcp_tau LanczosFilter2.ctor
         Filter2.ctor Filter2.m_rcp_xradius Filter2.m_rcp_yradius].
    rewrite !normalize_coordinate by lra.
    replace (0 / 1) with 0 by lra. rewrite lanczos_zero.
    rewrite lanczos_Fin by lra. cbn [Tmul lift2]. f_equal.
    replace (PI * (1 / 2 / 1) * 2) with PI by lra.
    rewrite sin_PI. unfold Rdiv. ring.
  - rewrite !Tdiv_Fin by lra.
    replace (0 / 1) with 0 by lra.
    rewrite lanczos_spec_Fin by lra.
    unfold LanczosFilter2.lanczos_spec. rewrite Teq_Fin_true by reflexivity.
    cbn [Tmul lift2]. eexists. split; [reflexivity |].
    assert (Hs1 : 0 < sin (PI * (1 / 2 / 1) / 2)) by (apply sin_gt_0; lra).
    assert (Hs2 : 0 < sin (PI * (1 / 2 / 1))) by (apply sin_gt_0; lra).
    rewrite Rmult_1_r.
    apply Rmult_lt_0_compat; apply Rdiv_lt_0_compat; assumption || lra.
Qed.

Lemma lanczos_constructor_stores_tau_itself_witness :
  LanczosFilter2.lanczos (Fin (1 / 2))
    (LanczosFilter2.m_rcp_tau (LanczosFilter2.ctor (Fin 1) (Fin 1) (Fin 2)))
  = Fin (sin (PI * (1 / 2) * 2) / (PI * (1 / 2) * 2)
         * (sin (PI * (1 / 2)) / (PI * (1 / 2)))).
Proof.
  destruct lanczos_constructor_stores_tau_itself as (_ & Hcode & _).
  apply Hcode; lra.
Defined.

(** ** The division by the sample count *)

Section EstimatorDivision.

Variable hammersley_sequence : list nat -> nat -> nat -> Vector2.t.

Context {F : Type} {Filter_F : Filter F}.

Lemma compute_normalization_factor_dividend (f : F) (sample_count : nat) :
  compute_normalization_factor hammersley_sequence f sample_count
  = (scaled_sum hammersley_sequence f sample_count / static_cast sample_count)%T.
Proof. reflexivity. Qed.

(** With no sample the loop body never runs and the quotient is undefined,
    whatever the filter. *)
Lemma normalization_factor_no_sample (f : F) :
  compute_normalization_factor hammersley_sequence f 0 = Undef.
Proof.
  rewrite compute_normalization_factor_dividend. apply Tdiv_zero.
Qed.

(** With at least one sample the division returns the quotient of its
    dividend. *)
Lemma normalization_factor_quotient (f : F) (sample_count : nat) (s : R) :
  (1 <= sample_count)%nat ->
  scaled_sum hammersley_sequence f sample_count = Fin s ->
  compute_normalization_factor hammersley_sequence f sample_count
  = Fin (s / INR sample_count).
Proof.
  intros Hn Hs. rewrite compute_normalization_factor_dividend, Hs.
  apply Tdiv_Fin, INR_positive, Hn.
Qed.

(** The loop keeps the accumulator a number when the sample points are
    numbers and the kernel is defined at every point. *)
Lemma accumulate_defined (f : F) (xr yr : R) (count : nat) :
  (forall i, exists sx sy : R,
     hammersley_sequence Bases i count = Vector2.make (Fin sx) (Fin sy)) ->
  (forall x y : R, exists v : R, evaluate f (Fin x) (Fin y) = Fin v) ->
  forall (remaining i : nat) (r : R),
    exists s : R,
      accumulate hammersley_sequence f (Fin xr) (Fin yr) count remaining i (Fin r)
      = Fin s.
Proof.
  intros Hpoints Hdefined. induction remaining as [| k IH]; intros i r.
  - exists r. reflexivity.
  - cbn [accumulate]. destruct (Hpoints i) as (sx & sy & ->).
    cbn [Vector2.x Vector2.y Tmul Tsub lift2].
    destruct (Hdefined (xr * (2 * sx - 1)) (yr * (2 * sy - 1))) as (v & ->).
    cbn [Tadd lift2]. apply IH.
Qed.

End EstimatorDivision.

(** The five kernels return a number at every point when their radii are
    not zero (and, for Lanczos, the stored window parameter is not zero). *)
Lemma box_defined (f : BoxFilter2.t) (x y : R) :
  exists v : R, evaluate f (Fin x) (Fin y) = Fin v.
Proof. exists 1. reflexivity. Qed.

Lemma triangle_defined (xr yr x y : R) :
  xr <> 0 -> yr <> 0 ->
  exists v : R,
    evaluate (TriangleFilter2.ctor (Fin xr) (Fin yr)) (Fin x) (Fin y) = Fin v.
Proof.
  intros Hx Hy. eexists. cbn [evaluate TriangleFilter2_Filter].
  now apply triangle_evaluate_formula.
Qed.

Lemma gaussian_defined (xr yr alpha x y : R) :
  xr <> 0 -> yr <> 0 ->
  exists v : R,
    evaluate (GaussianFilter2.ctor (Fin xr) (Fin yr) (Fin alpha)) (Fin x) (Fin y)
    = Fin v.
Proof.
  intros Hx Hy. eexists. cbn [evaluate GaussianFilter2_Filter].
  now apply gaussian_evaluate_formula.
Qed.

Lemma mitchell_defined (xr yr b c x y : R) :
  xr <> 0 -> yr <> 0 ->
  exists v : R,
    evaluate (MitchellFilter2.ctor (Fin xr) (Fin yr) (Fin b) (Fin c)) (Fin x) (Fin y)
    = Fin v.
Proof.
  intros Hx Hy. cbn [evaluate MitchellFilter2_Filter].
  unfold MitchellFilter2.evaluate.
  cbn [MitchellFilter2.base MitchellFilter2.ctor Filter2.ctor
       Filter2.m_rcp_xradius Filter2.m_rcp_yradius
       MitchellFilter2.m_a3 MitchellFilter2.m_a2 MitchellFilter2.m_a0
       MitchellFilter2.m_b3 MitchellFilter2.m_b2 MitchellFilter2.m_b1
       MitchellFilter2.m_b0].
  rewrite !normalize_coordinate by assumption. simpl.
  destruct (Rlt_dec (Rabs (x / xr + x / xr)) 1),
           (Rlt_dec (Rabs (y / yr + y / yr)) 1);
    eexists; reflexivity.
Qed.

Lemma lanczos_defined (xr yr tau x y : R) :
  xr <> 0 -> yr <> 0 -> tau <> 0 ->
  exists v : R,
    evaluate (LanczosFilter2.ctor (Fin xr) (Fin yr) (Fin tau)) (Fin x) (Fin y)
    = Fin v.
Proof.
  intros Hx Hy Ht. cbn [evaluate LanczosFilter2_Filter].
  unfold LanczosFilter2.evaluate.
  cbn [LanczosFilter2.base LanczosFilter2.m_rcp_tau LanczosFilter2.ctor
       Filter2.ctor Filter2.m_rcp_xradius Filter2.m_rcp_yradius].
  rewrite !normalize_coordinate by assumption.
  assert (Haxis : forall n : R, exists v : R,
            LanczosFilter2.lanczos (Fin n) (Fin tau) = Fin v).
  { intros n. destruct (Req_dec_T n 0) as [-> | Hn].
    - exists 1. apply lanczos_zero.
    - eexists. now apply lanczos_Fin. }
  destruct (Haxis (x / xr)) as (vx & ->), (Haxis (y / yr)) as (vy & ->).
  eexists. reflexivity.
Qed.

Lemma hammersley_2d_defined (bases : list nat) (input count : nat) :
  (1 <= count)%nat ->
  exists sx sy : R,
    hammersley_2d bases input count = Vector2.make (Fin sx) (Fin sy).
Proof.
  intros Hcount. unfold hammersley_2d, static_cast.
  rewrite Tdiv_Fin by (apply INR_positive; assumption).
  eexists. eexists. reflexivity.
Qed.

(** C10: nothing guards the final division by [sample_count].  With
    [sample_count = 0], for every filter, the loop body is skipped (the sum
    is the initial 0, and so is the dividend when the radii are numbers),
    the divisor is 0 and the result is undefined.  With [sample_count >= 1]
    the divisor is not 0: the division returns the quotient of its dividend,
    and the result is a number whenever the radii and the sample points are
    numbers and the kernel is defined at every point. *)
Theorem normalization_division_by_sample_count :
  forall (hammersley_sequence : list nat -> nat -> nat -> Vector2.t)
         (F : Type) (Filter_F : Filter F) (f : F),
    (accumulate hammersley_sequence f (get_xradius f) (get_yradius f) 0 0 0 (Fin 0)
     = Fin 0
     /\ static_cast 0 = Fin 0
     /\ (forall xr yr : R,
           get_xradius f = Fin xr -> get_yradius f = Fin yr ->
           scaled_sum hammersley_sequence f 0 = Fin 0)
     /\ compute_normalization_factor hammersley_sequence f 0 = Undef)
    /\ (forall sample_count : nat, (1 <= sample_count)%nat ->
          static_cast sample_count <> Fin 0
          /\ (forall s : R,
                scaled_sum hammersley_sequence f sample_count = Fin s ->
                compute_normalization_factor hammersley_sequence f sample_count
                = Fin (s / INR sample_count))
          /\ (forall xr yr : R,
                get_xradius f = Fin xr -> get_yradius f = Fin yr ->
                (forall i, exists sx sy : R,
                   hammersley_sequence Bases i sample_count
                   = Vector2.make (Fin sx) (Fin sy)) ->
                (forall x y : R, exists v : R, evaluate f (Fin x) (Fin y) = Fin v) ->
                exists r : R,
                  compute_normalization_factor hammersley_sequence f sample_count
                  = Fin r)).
Proof.
  intros hs F Filter_F f. split.
  - split; [reflexivity |]. split; [reflexivity |]. split.
    + intros xr yr Hxr Hyr. unfold scaled_sum. rewrite Hxr, Hyr.
      cbn [accumulate Tmul lift2]. f_equal. ring.
    + apply normalization_factor_no_sample.
  - intros n Hn. split; [| split].
    + unfold static_cast. intros Heq. injection Heq as Heq.
      now apply (INR_positive n).
    + intros s Hs. now apply normalization_factor_quotient.
    + intros xr yr Hxr Hyr Hpoints Hdefined.
      destruct (accumulate_defined hs f xr yr n Hpoints Hdefined n 0%nat 0)
        as (s & Hs).
      exists (s * (4 * xr * yr) / INR n).
      apply normalization_factor_quotient; [assumption |].
      unfold scaled_sum. rewrite Hxr, Hyr, Hs. reflexivity.
Qed.

Lemma normalization_division_by_sample_count_witness :
  compute_normalization_factor hammersley_2d
    (GaussianFilter2.ctor (Fin 2) (Fin 2) (Fin 4)) 0 = Undef
  /\ exists r : R,
       compute_normalization_factor hammersley_2d
         (GaussianFilter2.ctor (Fin 2) (Fin 2) (Fin 4)) default_sample_count
       = Fin r.
Proof.
  destruct (normalization_division_by_sample_count hammersley_2d
              GaussianFilter2.t GaussianFilter2_Filter
              (GaussianFilter2.ctor (Fin 2) (Fin 2) (Fin 4)))
    as ((_ & _ & _ & Hzero) & Hpositive).
  split; [exact Hzero |].
  assert (Hcount : (1 <= default_sample_count)%nat)
    by (unfold default_sample_count; lia).
  destruct (Hpositive default_sample_count Hcount) as (_ & _ & Hdefined).
  apply (Hdefined 2 2); try reflexivity.
  - intros i. now apply hammersley_2d_defined.
  - intros x y. apply gaussian_defined; lra.
Defined.

(** With a single sample the point drawn is the corner (-xradius, -yradius)
    of the support, where the triangle kernel vanishes: the estimate is 0. *)
Example triangle_single_sample :
  compute_normalization_factor hammersley_2d
    (TriangleFilter2.ctor (Fin 1) (Fin 1)) 1
  = Fin 0.
Proof.
  unfold compute_normalization_factor.
  cbn [accumulate hammersley_2d Bases hd Vector2.x Vector2.y
       get_xradius get_yradius evaluate TriangleFilter2_Filter
       Filter2.get_xradius Filter2.get_yradius Filter2.m_xradius
       Filter2.m_yradius TriangleFilter2.base TriangleFilter2.ctor Filter2.ctor].
  unfold static_cast, radical_inverse. cbn [radical_inverse_digits INR].
  rewrite !Tdiv_Fin by lra. cbn [Tmul Tsub lift2].
  change (TriangleFilter2.evaluate
            {| TriangleFilter2.base := Filter2.ctor (Fin 1) (Fin 1) |})
    with (TriangleFilter2.evaluate (TriangleFilter2.ctor (Fin 1) (Fin 1))).
  rewrite triangle_evaluate_formula by lra.
  cbn [Tadd Tmul lift2]. rewrite Tdiv_Fin by lra. f_equal.
  replace (1 * (2 * (0 / 1) - 1) / 1) with (- (1)) by lra.
  rewrite Rabs_Ropp, Rabs_R1. lra.
Qed.

(** * Further properties of the kernels *)

(** ** Symmetry of the Gaussian and Mitchell-Netravali kernels *)

Lemma gaussian_opp (n alpha : T) :
  GaussianFilter2.gaussian (- n)%T alpha = GaussianFilter2.gaussian n alpha.
Proof.
  unfold GaussianFilter2.gaussian.
  destruct n as [n |], alpha as [alpha |]; simpl; try reflexivity.
  replace (- alpha * - n * - n) with (- alpha * n * n) by ring.
  reflexivity.
Qed.

Lemma Tabs_double_opp (n : T) : Tabs (- n + - n)%T = Tabs (n + n)%T.
Proof.
  destruct n as [n |]; simpl; [| reflexivity].
  f_equal. replace (- n + - n) with (- (n + n)) by ring. apply Rabs_Ropp.
Qed.

Lemma per_axis_opp (f : MitchellFilter2.t) (n : T) :
  MitchellFilter2.per_axis f (- n)%T = MitchellFilter2.per_axis f n.
Proof.
  unfold MitchellFilter2.per_axis. now rewrite Tabs_double_opp.
Qed.

(** X1: the Gaussian and the Mitchell-Netravali kernels are symmetric about
    each axis, as is the static helper [mitchell] in its coordinate. *)
Theorem gaussian_mitchell_axis_symmetry :
  (forall (f : GaussianFilter2.t) (x y : T),
     GaussianFilter2.evaluate f (- x)%T y = GaussianFilter2.evaluate f x y
     /\ GaussianFilter2.evaluate f x (- y)%T = GaussianFilter2.evaluate f x y)
  /\ (forall (f : MitchellFilter2.t) (x y : T),
        MitchellFilter2.evaluate f (- x)%T y = MitchellFilter2.evaluate f x y
        /\ MitchellFilter2.evaluate f x (- y)%T = MitchellFilter2.evaluate f x y)
  /\ (forall x b c : T,
        MitchellFilter2.mitchell (- x)%T b c = MitchellFilter2.mitchell x b c).
Proof.
  split; [| split].
  - intros f x y. unfold GaussianFilter2.evaluate.
    rewrite !Tmul_opp_l, !gaussian_opp. split; reflexivity.
  - intros f x y. rewrite !evaluate_per_axis.
    rewrite !Tmul_opp_l, !per_axis_opp. split; reflexivity.
  - intros x b c. unfold MitchellFilter2.mitchell.
    now rewrite Tabs_double_opp.
Qed.

(** ** Values of the Mitchell-Netravali kernel *)

(** One axis of the kernel on numbers: the cubic of the branch that
    u = |2n| selects. *)
Lemma mitchell_per_axis_Fin (xradius yradius : T) (b c n : R) :
  MitchellFilter2.per_axis
    (MitchellFilter2.ctor xradius yradius (Fin b) (Fin c)) (Fin n)
  = Fin (if Rlt_dec (Rabs (n + n)) 1
         then 1 / 6 * (12 - 9 * b - 6 * c) * (Rabs (n + n) * Rabs (n + n) * Rabs (n + n))
              + 1 / 6 * (-18 + 12 * b + 6 * c) * (Rabs (n + n) * Rabs (n + n))
              + 1 / 6 * (6 - 2 * b)
         else 1 / 6 * (- b - 6 * c) * (Rabs (n + n) * Rabs (n + n) * Rabs (n + n))
              + 1 / 6 * (6 * b + 30 * c) * (Rabs (n + n) * Rabs (n + n))
              + 1 / 6 * (-12 * b - 48 * c) * Rabs (n + n)
              + 1 / 6 * (8 * b + 24 * c)).
Proof.
  mitchell_unfold. simpl.
  destruct (Rlt_dec (Rabs (n + n)) 1); reflexivity.
Qed.


Lemma mitchell_per_axis_edge (xradius yradius : T) (b c : R) :
  MitchellFilter2.per_axis
    (MitchellFilter2.ctor xradius yradius (Fin b) (Fin c)) (Fin 1)
  = Fin 0.
Proof.
  rewrite mitchell_per_axis_Fin. f_equal.
  replace (Rabs (1 + 1)) with 2 by (rewrite Rabs_right; lra).
  destruct (Rlt_dec 2 1); [exfalso; lra | field].
Qed.

Lemma mitchell_per_axis_defined (xradius yradius : T) (b c n : R) :
  exists v : R,
    MitchellFilter2.per_axis
      (MitchellFilter2.ctor xradius yradius (Fin b) (Fin c)) (Fin n)
    = Fin v.
Proof.
  eexists. apply mitchell_per_axis_Fin.
Qed.



Lemma mitchell_evaluate_axes (xr yr b c x y : R) :
  xr <> 0 -> yr <> 0 ->
  MitchellFilter2.evaluate
    (MitchellFilter2.ctor (Fin xr) (Fin yr) (Fin b) (Fin c)) (Fin x) (Fin y)
  = (MitchellFilter2.per_axis
       (MitchellFilter2.ctor (Fin xr) (Fin yr) (Fin b) (Fin c)) (Fin (x / xr))
     * MitchellFilter2.per_axis
         (MitchellFilter2.ctor (Fin xr) (Fin yr) (Fin b) (Fin c)) (Fin (y / yr)))%T.
Proof.
  intros Hx Hy. rewrite evaluate_per_axis.
  cbn [MitchellFilter2.base MitchellFilter2.ctor Filter2.ctor
       Filter2.m_rcp_xradius Filter2.m_rcp_yradius].
  rewrite !normalize_coordinate by assumption. reflexivity.
Qed.

Section MitchellEdge.

Import PrimFloat.

(** X3: in exact arithmetic, with positive radii the Mitchell-Netravali
    kernel is 0 on the edge of either axis, for all b and c: there u = 2 and
    the outer cubic has a root at 2.  At T = double the edge value is a
    rounding residue, not 0: with radii 2 and 3 and b = c = 1/3,
    evaluate(2, 1) returns 3.07e-16. *)
Theorem mitchell_edge_vanishes :
  (forall xr yr b c : R, 0 < xr -> 0 < yr ->
     let f := MitchellFilter2.ctor (Fin xr) (Fin yr) (Fin b) (Fin c) in
     MitchellFilter2.outer_cubic f (Fin 2) = Fin 0
     /\ (forall y : R, MitchellFilter2.evaluate f (Fin xr) (Fin y) = Fin 0)
     /\ (forall x : R, MitchellFilter2.evaluate f (Fin x) (Fin yr) = Fin 0))
  /\ (let f := Binary64.MitchellFilter2.ctor 2 3 (1 / 3) (1 / 3) in
      Binary64.MitchellFilter2.evaluate f 2 1 = 0x1.61f9add3c0ca4p-52
      /\ (Binary64.MitchellFilter2.evaluate f 2 1 =? 0) = false
      /\ (abs (Binary64.MitchellFilter2.evaluate f 2 1) <=? 0x1p-50) = true)%float.
Proof.
  split; [| repeat split; vm_compute; reflexivity].
  intros xr yr b c Hxr Hyr f. subst f. split; [| split].
  - mitchell_unfold. simpl. f_equal. field.
  - intros y. rewrite mitchell_evaluate_axes by lra.
    replace (xr / xr) with 1 by (field; lra).
    rewrite mitchell_per_axis_edge.
    destruct (mitchell_per_axis_defined (Fin xr) (Fin yr) b c (y / yr)) as (v & ->).
    simpl. f_equal. ring.
  - intros x. rewrite mitchell_evaluate_axes by lra.
    replace (yr / yr) with 1 by (field; lra).
    rewrite mitchell_per_axis_edge.
    destruct (mitchell_per_axis_defined (Fin xr) (Fin yr) b c (x / xr)) as (v & ->).
    simpl. f_equal. ring.
Qed.

End MitchellEdge.

Lemma mitchell_edge_vanishes_witness :
  MitchellFilter2.evaluate
    (MitchellFilter2.ctor (Fin 2) (Fin 3) (Fin (1 / 3)) (Fin (1 / 3)))
    (Fin 2) (Fin 1)
  = Fin 0.
Proof.
  destruct mitchell_edge_vanishes as [Hexact _].
  destruct (Hexact 2 3 (1 / 3) (1 / 3) ltac:(lra) ltac:(lra))
    as (_ & Hxedge & _).
  apply Hxedge.
Defined.

(** The derivative of a cubic given by its coefficients. *)
Lemma cubic_derivative (k3 k2 k1 k0 u : R) :
  derivable_pt_lim
    (fun t : R => k3 * (t * t * t) + k2 * (t * t) + k1 * t + k0) u
    (3 * k3 * (u * u) + 2 * k2 * u + k1).
Proof.
  pose (g := (mult_real_fct k3 (fun t => t ^ 3)
              + (mult_real_fct k2 (fun t => t ^ 2)
                 + (mult_real_fct k1 id + fct_cte k0)))%F).
  apply derivable_pt_lim_ext with (f := g).
  { intros t. unfold g, plus_fct, mult_real_fct, fct_cte, id. ring. }
  replace (3 * k3 * (u * u) + 2 * k2 * u + k1)
    with (k3 * (INR 3 * u ^ pred 3)
          + (k2 * (INR 2 * u ^ pred 2) + (k1 * 1 + 0)))
    by (simpl; ring).
  unfold g.
  apply derivable_pt_lim_plus;
    [apply derivable_pt_lim_scal, derivable_pt_lim_pow |].
  apply derivable_pt_lim_plus;
    [apply derivable_pt_lim_scal, derivable_pt_lim_pow |].
  apply derivable_pt_lim_plus;
    [apply derivable_pt_lim_scal, derivable_pt_lim_id
    | apply derivable_pt_lim_const].
Qed.

(** X4: for all b and c the two cubics of Mitchell-Netravali are polynomials
    P (inner) and Q (outer) in u with the same derivative, -(b + 2c)/2, at
    the breakpoint u = 1; moreover P has derivative 0 at u = 0 (the inner
    cubic has no linear term) and Q has derivative 0 at the edge u = 2. *)
Theorem mitchell_derivative_continuous :
  forall (xradius yradius : T) (b c : R),
    let f := MitchellFilter2.ctor xradius yradius (Fin b) (Fin c) in
    exists P Q : R -> R,
      (forall u : R, MitchellFilter2.inner_cubic f (Fin u) = Fin (P u))
      /\ (forall u : R, MitchellFilter2.outer_cubic f (Fin u) = Fin (Q u))
      /\ derivable_pt_lim P 1 (- (b + 2 * c) / 2)
      /\ derivable_pt_lim Q 1 (- (b + 2 * c) / 2)
      /\ derivable_pt_lim P 0 0
      /\ derivable_pt_lim Q 2 0.
Proof.
  intros xradius yradius b c f. subst f.
  exists (fun t => 1 / 6 * (12 - 9 * b - 6 * c) * (t * t * t)
                   + 1 / 6 * (-18 + 12 * b + 6 * c) * (t * t)
                   + 0 * t
                   + 1 / 6 * (6 - 2 * b)).
  exists (fun t => 1 / 6 * (- b - 6 * c) * (t * t * t)
                   + 1 / 6 * (6 * b + 30 * c) * (t * t)
                   + 1 / 6 * (-12 * b - 48 * c) * t
                   + 1 / 6 * (8 * b + 24 * c)).
  split; [intros u; mitchell_unfold; simpl; f_equal; ring |].
  split; [intros u; mitchell_unfold; simpl; f_equal; ring |].
  repeat split.
  - replace (- (b + 2 * c) / 2)
      with (3 * (1 / 6 * (12 - 9 * b - 6 * c)) * (1 * 1)
            + 2 * (1 / 6 * (-18 + 12 * b + 6 * c)) * 1 + 0) by field.
    apply cubic_derivative.
  - replace (- (b + 2 * c) / 2)
      with (3 * (1 / 6 * (- b - 6 * c)) * (1 * 1)
            + 2 * (1 / 6 * (6 * b + 30 * c)) * 1
            + 1 / 6 * (-12 * b - 48 * c)) by field.
    apply cubic_derivative.
  - replace 0
      with (3 * (1 / 6 * (12 - 9 * b - 6 * c)) * (0 * 0)
            + 2 * (1 / 6 * (-18 + 12 * b + 6 * c)) * 0 + 0) at 2 by field.
    apply cubic_derivative.
  - replace 0
      with (3 * (1 / 6 * (- b - 6 * c)) * (2 * 2)
            + 2 * (1 / 6 * (6 * b + 30 * c)) * 2
            + 1 / 6 * (-12 * b - 48 * c)) by field.
    apply cubic_derivative.
Qed.

(** ** Range, falloff and sign of the Triangle and Gaussian kernels *)

Lemma Rabs_normalized (x r : R) : 0 < r -> Rabs (x / r) = Rabs x / r.
Proof.
  intros Hr. unfold Rdiv. rewrite Rabs_mult, Rabs_inv.
  now rewrite (Rabs_right r) by lra.
Qed.

Lemma normalized_le (a b r : R) : 0 < r -> a <= b -> a / r <= b / r.
Proof.
  intros Hr Hab. unfold Rdiv. apply Rmult_le_compat_r; [| assumption].
  left. now apply Rinv_0_lt_compat.
Qed.

Lemma normalized_unit (r : R) : 0 < r -> r / r = 1.
Proof. intros Hr. field. lra. Qed.

Lemma square_as_abs (n : R) : n * n = Rabs n * Rabs n.
Proof.
  unfold Rabs. destruct (Rcase_abs n); ring.
Qed.

Lemma exp_monotone (a b : R) : a <= b -> exp a <= exp b.
Proof.
  intros [Hlt | ->]; [left; now apply exp_increasing | right; reflexivity].
Qed.

Lemma normalized_abs_le (a b r : R) :
  0 < r -> Rabs a <= Rabs b -> Rabs (a / r) <= Rabs (b / r).
Proof.
  intros Hr Hab. rewrite !Rabs_normalized by assumption.
  now apply normalized_le.
Qed.

Lemma normalized_abs_inside (a r : R) :
  0 < r -> Rabs a <= r -> 0 <= 1 - Rabs (a / r).
Proof.
  intros Hr Ha. rewrite Rabs_normalized by assumption.
  pose proof (normalized_le _ _ r Hr Ha) as Hle.
  rewrite normalized_unit in Hle by assumption. lra.
Qed.

(** One axis of the Triangle kernel, 1 - |a / r|, inside the support. *)
Lemma triangle_factor_range (a r : R) :
  0 < r -> Rabs a <= r -> 0 <= 1 - Rabs (a / r) <= 1.
Proof.
  intros Hr Ha. split; [now apply normalized_abs_inside |].
  pose proof (Rabs_pos (a / r)). lra.
Qed.

(** X5: with positive radii, inside the support the Triangle kernel returns
    a weight between 0 and 1. *)
Theorem triangle_range_in_support :
  forall xr yr x y : R, 0 < xr -> 0 < yr -> Rabs x <= xr -> Rabs y <= yr ->
    exists v : R,
      TriangleFilter2.evaluate (TriangleFilter2.ctor (Fin xr) (Fin yr))
        (Fin x) (Fin y) = Fin v
      /\ 0 <= v <= 1.
Proof.
  intros xr yr x y Hxr Hyr Hx Hy.
  rewrite triangle_evaluate_formula by lra.
  eexists. split; [reflexivity |].
  pose proof (triangle_factor_range x xr Hxr Hx) as Hfx.
  pose proof (triangle_factor_range y yr Hyr Hy) as Hfy.
  split; nra.
Qed.

Lemma triangle_range_in_support_witness :
  exists v : R,
    TriangleFilter2.evaluate (TriangleFilter2.ctor (Fin 2) (Fin 4))
      (Fin 1) (Fin (-3)) = Fin v
    /\ 0 <= v <= 1.
Proof.
  assert (Hx : Rabs 1 <= 2) by (rewrite Rabs_R1; lra).
  assert (Hy : Rabs (-3) <= 4) by (rewrite Rabs_left by lra; lra).
  apply (triangle_range_in_support 2 4 1 (-3) ltac:(lra) ltac:(lra) Hx Hy).
Defined.

(** One axis of the Gaussian kernel, exp(-alpha*n*n) - exp(-alpha), for
    alpha > 0: it decreases as |n| grows, and is 0 at |n| = 1. *)
Lemma gaussian_factor_decreasing (alpha n1 n2 : R) :
  0 < alpha -> Rabs n1 <= Rabs n2 ->
  exp (- alpha * n2 * n2) - exp (- alpha) <= exp (- alpha * n1 * n1) - exp (- alpha).
Proof.
  intros Halpha Hn.
  assert (Hsq : n1 * n1 <= n2 * n2).
  { rewrite (square_as_abs n1), (square_as_abs n2).
    pose proof (Rabs_pos n1). nra. }
  assert (Hexp : exp (- alpha * n2 * n2) <= exp (- alpha * n1 * n1))
    by (apply exp_monotone; nra).
  lra.
Qed.

Lemma gaussian_factor_at_one (alpha : R) :
  exp (- alpha * 1 * 1) - exp (- alpha) = 0.
Proof.
  replace (- alpha * 1 * 1) with (- alpha) by ring. ring.
Qed.

Lemma gaussian_factor_at_zero (alpha : R) :
  exp (- alpha * 0 * 0) - exp (- alpha) = 1 - exp (- alpha).
Proof.
  replace (- alpha * 0 * 0) with 0 by ring. now rewrite exp_0.
Qed.

Lemma gaussian_factor_range (alpha a r : R) :
  0 < alpha -> 0 < r -> Rabs a <= r ->
  0 <= exp (- alpha * (a / r) * (a / r)) - exp (- alpha) <= 1 - exp (- alpha).
Proof.
  intros Halpha Hr Ha. split.
  - rewrite <- (gaussian_factor_at_one alpha).
    apply gaussian_factor_decreasing; [assumption |].
    rewrite Rabs_R1. pose proof (normalized_abs_inside a r Hr Ha). lra.
  - rewrite <- (gaussian_factor_at_zero alpha).
    apply gaussian_factor_decreasing; [assumption |].
    rewrite Rabs_R0. apply Rabs_pos.
Qed.

(** X6: with positive radii and alpha > 0, inside the support the Gaussian
    kernel returns a weight between 0 and its value (1 - exp(-alpha))^2 at
    the origin. *)
Theorem gaussian_range_in_support :
  forall xr yr alpha x y : R,
    0 < xr -> 0 < yr -> 0 < alpha -> Rabs x <= xr -> Rabs y <= yr ->
    exists v : R,
      GaussianFilter2.evaluate
        (GaussianFilter2.ctor (Fin xr) (Fin yr) (Fin alpha)) (Fin x) (Fin y)
      = Fin v
      /\ 0 <= v <= (1 - exp (- alpha)) ^ 2.
Proof.
  intros xr yr alpha x y Hxr Hyr Halpha Hx Hy.
  rewrite gaussian_evaluate_formula by lra.
  eexists. split; [reflexivity |].
  pose proof (gaussian_factor_range alpha x xr Halpha Hxr Hx) as Hfx.
  pose proof (gaussian_factor_range alpha y yr Halpha Hyr Hy) as Hfy.
  split; nra.
Qed.

Lemma gaussian_range_in_support_witness :
  exists v : R,
    GaussianFilter2.evaluate
      (GaussianFilter2.ctor (Fin 2) (Fin 4) (Fin 4)) (Fin 1) (Fin (-3))
    = Fin v
    /\ 0 <= v <= (1 - exp (- 4)) ^ 2.
Proof.
  assert (Hx : Rabs 1 <= 2) by (rewrite Rabs_R1; lra).
  assert (Hy : Rabs (-3) <= 4) by (rewrite Rabs_left by lra; lra).
  apply (gaussian_range_in_support 2 4 4 1 (-3)
           ltac:(lra) ltac:(lra) ltac:(lra) Hx Hy).
Defined.

(** X7: with positive radii (and alpha > 0), inside the support the weights
    of the Triangle and Gaussian kernels do not increase when a coordinate
    moves away from the centre along its axis. *)
Theorem triangle_gaussian_falloff :
  forall xr yr alpha : R, 0 < xr -> 0 < yr -> 0 < alpha ->
    let triangle := TriangleFilter2.ctor (Fin xr) (Fin yr) in
    let gaussian := GaussianFilter2.ctor (Fin xr) (Fin yr) (Fin alpha) in
    (forall x1 x2 y : R,
       Rabs x1 <= Rabs x2 -> Rabs x2 <= xr -> Rabs y <= yr ->
       exists near far : R,
         TriangleFilter2.evaluate triangle (Fin x1) (Fin y) = Fin near
         /\ TriangleFilter2.evaluate triangle (Fin x2) (Fin y) = Fin far
         /\ far <= near)
    /\ (forall x y1 y2 : R,
          Rabs y1 <= Rabs y2 -> Rabs y2 <= yr -> Rabs x <= xr ->
          exists near far : R,
            TriangleFilter2.evaluate triangle (Fin x) (Fin y1) = Fin near
            /\ TriangleFilter2.evaluate triangle (Fin x) (Fin y2) = Fin far
            /\ far <= near)
    /\ (forall x1 x2 y : R,
          Rabs x1 <= Rabs x2 -> Rabs x2 <= xr -> Rabs y <= yr ->
          exists near far : R,
            GaussianFilter2.evaluate gaussian (Fin x1) (Fin y) = Fin near
            /\ GaussianFilter2.evaluate gaussian (Fin x2) (Fin y) = Fin far
            /\ far <= near)
    /\ (forall x y1 y2 : R,
          Rabs y1 <= Rabs y2 -> Rabs y2 <= yr -> Rabs x <= xr ->
          exists near far : R,
            GaussianFilter2.evaluate gaussian (Fin x) (Fin y1) = Fin near
            /\ GaussianFilter2.evaluate gaussian (Fin x) (Fin y2) = Fin far
            /\ far <= near).
Proof.
  intros xr yr alpha Hxr Hyr Halpha triangle gaussian. subst triangle gaussian.
  assert (Hgauss_inside : forall a r : R, 0 < r -> Rabs a <= r ->
            0 <= exp (- alpha * (a / r) * (a / r)) - exp (- alpha))
    by (intros a r Hr Ha; now apply gaussian_factor_range).
  split; [| split; [| split]].
  - intros x1 x2 y H12 H2 Hy.
    rewrite !triangle_evaluate_formula by lra.
    eexists. eexists. split; [reflexivity |]. split; [reflexivity |].
    pose proof (normalized_abs_le x1 x2 xr Hxr H12).
    pose proof (normalized_abs_inside y yr Hyr Hy).
    nra.
  - intros x y1 y2 H12 H2 Hx.
    rewrite !triangle_evaluate_formula by lra.
    eexists. eexists. split; [reflexivity |]. split; [reflexivity |].
    pose proof (normalized_abs_le y1 y2 yr Hyr H12).
    pose proof (normalized_abs_inside x xr Hxr Hx).
    nra.
  - intros x1 x2 y H12 H2 Hy.
    rewrite !gaussian_evaluate_formula by lra.
    eexists. eexists. split; [reflexivity |]. split; [reflexivity |].
    pose proof (gaussian_factor_decreasing alpha _ _ Halpha
                  (normalized_abs_le x1 x2 xr Hxr H12)).
    pose proof (Hgauss_inside y yr Hyr Hy).
    nra.
  - intros x y1 y2 H12 H2 Hx.
    rewrite !gaussian_evaluate_formula by lra.
    eexists. eexists. split; [reflexivity |]. split; [reflexivity |].
    pose proof (gaussian_factor_decreasing alpha _ _ Halpha
                  (normalized_abs_le y1 y2 yr Hyr H12)).
    pose proof (Hgauss_inside x xr Hxr Hx).
    nra.
Qed.

Lemma triangle_gaussian_falloff_witness :
  exists near far : R,
    GaussianFilter2.evaluate (GaussianFilter2.ctor (Fin 2) (Fin 4) (Fin 4))
      (Fin 1) (Fin 3) = Fin near
    /\ GaussianFilter2.evaluate (GaussianFilter2.ctor (Fin 2) (Fin 4) (Fin 4))
         (Fin (-2)) (Fin 3) = Fin far
    /\ far <= near.
Proof.
  destruct (triangle_gaussian_falloff 2 4 4 ltac:(lra) ltac:(lra) ltac:(lra))
    as (_ & _ & Hgaussian & _).
  apply Hgaussian.
  - rewrite Rabs_R1, Rabs_left by lra. lra.
  - rewrite Rabs_left by lra. lra.
  - rewrite Rabs_right by lra. lra.
Defined.

Lemma normalized_abs_far (a r : R) :
  0 < r -> 2 * r <= Rabs a -> 2 <= Rabs (a / r).
Proof.
  intros Hr Ha. rewrite Rabs_normalized by assumption.
  pose proof (normalized_le _ _ r Hr Ha) as Hle.
  replace (2 * r / r) with 2 in Hle by (field; lra). exact Hle.
Qed.

Lemma normalized_abs_near (a r : R) :
  0 < r -> Rabs a <= r / 2 -> Rabs (a / r) <= 1 / 2.
Proof.
  intros Hr Ha. rewrite Rabs_normalized by assumption.
  pose proof (normalized_le _ _ r Hr Ha) as Hle.
  replace (r / 2 / r) with (1 / 2) in Hle by (field; lra). exact Hle.
Qed.

(** X8: away from its support the Triangle kernel does not return 0.  With
    positive radii, the weight is positive when both coordinates are at
    least twice their radius, and negative when one coordinate is at least
    twice its radius and the other at most half its radius. *)
Theorem triangle_outside_support :
  forall xr yr x y : R, 0 < xr -> 0 < yr ->
    exists v : R,
      TriangleFilter2.evaluate (TriangleFilter2.ctor (Fin xr) (Fin yr))
        (Fin x) (Fin y) = Fin v
      /\ (2 * xr <= Rabs x -> 2 * yr <= Rabs y -> 0 < v)
      /\ (2 * xr <= Rabs x -> Rabs y <= yr / 2 -> v < 0)
      /\ (Rabs x <= xr / 2 -> 2 * yr <= Rabs y -> v < 0).
Proof.
  intros xr yr x y Hxr Hyr.
  rewrite triangle_evaluate_formula by lra.
  eexists. split; [reflexivity |].
  split; [| split]; intros Hx Hy.
  - pose proof (normalized_abs_far x xr Hxr Hx).
    pose proof (normalized_abs_far y yr Hyr Hy). nra.
  - pose proof (normalized_abs_far x xr Hxr Hx).
    pose proof (normalized_abs_near y yr Hyr Hy). nra.
  - pose proof (normalized_abs_near x xr Hxr Hx).
    pose proof (normalized_abs_far y yr Hyr Hy). nra.
Qed.

Lemma triangle_outside_support_witness :
  exists v : R,
    TriangleFilter2.evaluate (TriangleFilter2.ctor (Fin 1) (Fin 1))
      (Fin 2) (Fin (-3)) = Fin v
    /\ 0 < v.
Proof.
  destruct (triangle_outside_support 1 1 2 (-3) ltac:(lra) ltac:(lra))
    as (v & Hv & Hboth & _).
  exists v. split; [exact Hv |]. apply Hboth.
  - rewrite Rabs_right by lra. lra.
  - rewrite Rabs_left by lra. lra.
Defined.

(** ** Values of the Lanczos kernel *)

Lemma lanczos_evaluate_axes (xr yr : R) (tau : T) (x y : R) :
  xr <> 0 -> yr <> 0 ->
  LanczosFilter2.evaluate (LanczosFilter2.ctor (Fin xr) (Fin yr) tau)
    (Fin x) (Fin y)
  = (LanczosFilter2.lanczos (Fin (x / xr)) tau
     * LanczosFilter2.lanczos (Fin (y / yr)) tau)%T.
Proof.
  intros Hx Hy. unfold LanczosFilter2.evaluate.
  cbn [LanczosFilter2.base LanczosFilter2.m_rcp_tau LanczosFilter2.ctor
       Filter2.ctor Filter2.m_rcp_xradius Filter2.m_rcp_yradius].
  rewrite !normalize_coordinate by assumption. reflexivity.
Qed.

Lemma sin_abs_le (t : R) : Rabs (sin t) <= Rabs t.
Proof.
  assert (Hpos : forall u : R, 0 < u -> Rabs (sin u) <= u).
  { intros u Hu. apply Rabs_le. split; [| left; now apply sin_lt_x].
    pose proof PI2_1 as Hpi.
    destruct (Rle_or_lt u PI) as [Hle | Hgt].
    - pose proof (sin_ge_0 u (Rlt_le _ _ Hu) Hle). lra.
    - pose proof (SIN_bound u). lra. }
  destruct (Rtotal_order t 0) as [Hneg | [-> | Hgt]].
  - rewrite (Rabs_left t) by assumption.
    rewrite <- (Rabs_Ropp (sin t)), <- sin_neg. apply Hpos. lra.
  - rewrite sin_0, Rabs_R0. lra.
  - rewrite (Rabs_right t) by lra. now apply Hpos.
Qed.

Lemma sinc_bound (t : R) : t <> 0 -> Rabs (sin t / t) <= 1.
Proof.
  intros Ht. unfold Rdiv. rewrite Rabs_mult, Rabs_inv.
  pose proof (Rabs_pos_lt t Ht) as Hpos.
  pose proof (normalized_le _ _ (Rabs t) Hpos (sin_abs_le t)) as Hle.
  rewrite normalized_unit in Hle by assumption. exact Hle.
Qed.

(** One axis of the kernel with a non-zero stored parameter: a number of
    absolute value at most 1. *)
Lemma lanczos_axis_bound (n tau : R) :
  tau <> 0 ->
  exists v : R,
    LanczosFilter2.lanczos (Fin n) (Fin tau) = Fin v /\ Rabs v <= 1.
Proof.
  intros Ht. destruct (Req_dec_T n 0) as [-> | Hn].
  - exists 1. split; [apply lanczos_zero | rewrite Rabs_R1; lra].
  - eexists. split; [now apply lanczos_Fin |].
    assert (Hpi : PI <> 0) by apply PI_neq0.
    assert (Htheta : PI * n <> 0)
      by (apply Rmult_integral_contrapositive_currified; assumption).
    assert (Hscaled : PI * n * tau <> 0)
      by (apply Rmult_integral_contrapositive_currified; assumption).
    rewrite Rabs_mult.
    pose proof (sinc_bound _ Htheta) as H1.
    pose proof (sinc_bound _ Hscaled) as H2.
    pose proof (Rabs_pos (sin (PI * n) / (PI * n))).
    pose proof (Rabs_pos (sin (PI * n * tau) / (PI * n * tau))).
    nra.
Qed.

(** X9: with positive radii and tau not 0, the Lanczos kernel is a number of
    absolute value at most 1 at every point (its value at the origin). *)
Theorem lanczos_bounded_by_one :
  forall xr yr tau x y : R, 0 < xr -> 0 < yr -> tau <> 0 ->
    exists v : R,
      LanczosFilter2.evaluate
        (LanczosFilter2.ctor (Fin xr) (Fin yr) (Fin tau)) (Fin x) (Fin y)
      = Fin v
      /\ Rabs v <= 1.
Proof.
  intros xr yr tau x y Hxr Hyr Htau.
  rewrite lanczos_evaluate_axes by lra.
  destruct (lanczos_axis_bound (x / xr) tau Htau) as (vx & -> & Hvx).
  destruct (lanczos_axis_bound (y / yr) tau Htau) as (vy & -> & Hvy).
  exists (vx * vy). split; [reflexivity |].
  rewrite Rabs_mult.
  pose proof (Rabs_pos vx). pose proof (Rabs_pos vy). nra.
Qed.

Lemma lanczos_bounded_by_one_witness :
  exists v : R,
    LanczosFilter2.evaluate
      (LanczosFilter2.ctor (Fin 2) (Fin 2) (Fin 3)) (Fin 1) (Fin (-1))
    = Fin v
    /\ Rabs v <= 1.
Proof.
  apply lanczos_bounded_by_one; lra.
Defined.

(** X11: with tau = 0 (and positive radii) the Lanczos kernel is undefined
    at every point other than the origin: the first [sinc] divides
    sin(0) by 0. *)
Theorem lanczos_zero_tau_undefined :
  forall xr yr x y : R, 0 < xr -> 0 < yr -> x <> 0 \/ y <> 0 ->
    LanczosFilter2.evaluate
      (LanczosFilter2.ctor (Fin xr) (Fin yr) (Fin 0)) (Fin x) (Fin y)
    = Undef.
Proof.
  intros xr yr x y Hxr Hyr Hxy.
  assert (Haxis : forall n : R, n <> 0 ->
            LanczosFilter2.lanczos (Fin n) (Fin 0) = Undef).
  { intros n Hn. unfold LanczosFilter2.lanczos, Pi. cbn [Tmul lift2].
    rewrite Teq_Fin_false
      by (apply Rmult_integral_contrapositive_currified;
          [apply PI_neq0 | assumption]).
    rewrite Rmult_0_r. unfold LanczosFilter2.sinc at 1.
    rewrite Tdiv_zero. reflexivity. }
  assert (Hnormalized : forall a r : R, 0 < r -> a <> 0 -> a / r <> 0).
  { intros a r Hr Ha. unfold Rdiv.
    apply Rmult_integral_contrapositive_currified;
      [assumption | apply Rinv_neq_0_compat; lra]. }
  rewrite lanczos_evaluate_axes by lra.
  destruct Hxy as [Hx | Hy].
  - rewrite (Haxis (x / xr)) by (now apply Hnormalized). reflexivity.
  - rewrite (Haxis (y / yr)) by (now apply Hnormalized).
    destruct (LanczosFilter2.lanczos (Fin (x / xr)) (Fin 0)); reflexivity.
Qed.

Lemma lanczos_zero_tau_undefined_witness :
  LanczosFilter2.evaluate
    (LanczosFilter2.ctor (Fin 2) (Fin 2) (Fin 0)) (Fin 1) (Fin 0)
  = Undef.
Proof.
  apply lanczos_zero_tau_undefined; [lra | lra | left; lra].
Defined.

(** * Further properties of the estimator *)

Section BoxArea.

Import PrimFloat.

(** X12: in exact arithmetic, for a box of any radii the estimator returns
    the area of the support, 4 * xradius * yradius, for every sample count
    of at least 1 and every sample sequence.  At T = double the last bit of
    the result can depend on the sample count: with radii
    3.9603735367834076 and 0.2499526995940026 the estimator returns
    3.959624227678643 for 1 sample and 3.9596242276786433 for 6. *)
Theorem box_normalization_is_support_area :
  (forall (hammersley_sequence : list nat -> nat -> nat -> Vector2.t)
          (xr yr : R) (sample_count : nat),
     (1 <= sample_count)%nat ->
     compute_normalization_factor hammersley_sequence
       (BoxFilter2.ctor (Fin xr) (Fin yr)) sample_count
     = Fin (4 * xr * yr))
  /\ (forall hammersley_sequence : list nat -> nat -> nat -> Binary64.Vector2.t,
        let f :=
          Binary64.BoxFilter2.ctor
            0x1.faed852236dc0p+1%float 0x1.ffe733726cdbdp-3%float in
        Binary64.box_compute_normalization_factor hammersley_sequence f 1
        = 0x1.fad4f7792a1dap+1%float
        /\ Binary64.box_compute_normalization_factor hammersley_sequence f 6
           = 0x1.fad4f7792a1dbp+1%float).
Proof.
  split; [| intros hs; split; vm_compute; reflexivity].
  intros hs xr yr n Hn.
  pose proof (INR_positive n Hn) as Hne.
  unfold compute_normalization_factor. rewrite box_accumulate.
  unfold static_cast.
  cbn [get_xradius get_yradius BoxFilter2_Filter Filter2.get_xradius
       Filter2.get_yradius Filter2.m_xradius Filter2.m_yradius
       BoxFilter2.base BoxFilter2.ctor Filter2.ctor Tmul lift2].
  rewrite Tdiv_Fin by assumption.
  f_equal. field. assumption.
Qed.

End BoxArea.

Lemma box_normalization_is_support_area_witness :
  compute_normalization_factor hammersley_2d
    (BoxFilter2.ctor (Fin 2) (Fin 3)) 16
  = Fin (4 * 2 * 3).
Proof.
  destruct box_normalization_is_support_area as [Hexact _].
  apply Hexact. lia.
Defined.

(** The modelled sequence stays in the unit square. *)
Lemma radical_inverse_digits_range (base : nat) :
  (1 <= base)%nat ->
  forall (fuel input : nat) (weight : R),
    0 <= weight ->
    0 <= radical_inverse_digits fuel base input weight <= INR base * weight.
Proof.
  intros Hbase.
  assert (Hb : 1 <= INR base) by (change 1 with (INR 1); apply le_INR; assumption).
  induction fuel as [| k IH]; intros input weight Hw.
  - simpl. nra.
  - cbn [radical_inverse_digits].
    assert (Hw' : 0 <= weight / INR base).
    { unfold Rdiv. apply Rmult_le_pos; [assumption |].
      left. apply Rinv_0_lt_compat. lra. }
    pose proof (IH (input / base)%nat (weight / INR base) Hw') as [Hlo Hhi].
    replace (INR base * (weight / INR base)) with weight in Hhi
      by (field; lra).
    assert (Hdigit : 0 <= INR (input mod base) <= INR base - 1).
    { split; [apply pos_INR |].
      assert (Hlt : (S (input mod base) <= base)%nat)
        by (apply Nat.mod_upper_bound; lia).
      apply le_INR in Hlt. rewrite S_INR in Hlt. lra. }
    split; nra.
Qed.

Lemma hammersley_2d_unit_square (input count : nat) :
  (input < count)%nat ->
  exists sx sy : R,
    hammersley_2d Bases input count = Vector2.make (Fin sx) (Fin sy)
    /\ 0 <= sx <= 1 /\ 0 <= sy <= 1.
Proof.
  intros Hlt. unfold hammersley_2d, static_cast, Bases. cbn [hd].
  assert (Hcount : 0 < INR count) by (apply lt_0_INR; lia).
  rewrite Tdiv_Fin by lra.
  eexists. eexists. split; [reflexivity |]. split.
  - pose proof (pos_INR input) as Hin.
    assert (Hle : INR input <= INR count) by (apply le_INR; lia).
    pose proof (normalized_le _ _ _ Hcount Hin) as H0.
    pose proof (normalized_le _ _ _ Hcount Hle) as H1.
    rewrite normalized_unit in H1 by assumption.
    replace (0 / INR count) with 0 in H0 by (field; lra).
    lra.
  - unfold radical_inverse.
    pose proof (radical_inverse_digits_range 2 ltac:(lia) input input (1 / INR 2))
      as Hrange.
    simpl INR in *. lra.
Qed.

Section EstimatorSupport.

Variable hammersley_sequence : list nat -> nat -> nat -> Vector2.t.

Variables (xr yr : R) (sample_count : nat).

Hypothesis xr_nonneg : 0 <= xr.
Hypothesis yr_nonneg : 0 <= yr.

(** The sample points drawn for the indices below [sample_count] lie in the
    unit square. *)
Hypothesis points_in_unit_square :
  forall i : nat, (i < sample_count)%nat ->
    exists sx sy : R,
      hammersley_sequence Bases i sample_count = Vector2.make (Fin sx) (Fin sy)
      /\ 0 <= sx <= 1 /\ 0 <= sy <= 1.

Lemma sample_in_support (r s : R) :
  0 <= r -> 0 <= s <= 1 -> - r <= r * (2 * s - 1) <= r.
Proof. intros Hr Hs. split; nra. Qed.

(** Two kernels that agree on the support accumulate the same sum. *)
Lemma accumulate_agree {F G : Type} {Filter_F : Filter F} {Filter_G : Filter G}
    (f : F) (g : G) :
  (forall x y : R, - xr <= x <= xr -> - yr <= y <= yr ->
     evaluate f (Fin x) (Fin y) = evaluate g (Fin x) (Fin y)) ->
  forall (remaining i : nat) (result : T),
    (i + remaining <= sample_count)%nat ->
    accumulate hammersley_sequence f (Fin xr) (Fin yr) sample_count remaining i result
    = accumulate hammersley_sequence g (Fin xr) (Fin yr) sample_count remaining i result.
Proof.
  intros Hagree. induction remaining as [| k IH]; intros i result Hi.
  - reflexivity.
  - cbn [accumulate].
    destruct (points_in_unit_square i ltac:(lia)) as (sx & sy & -> & Hsx & Hsy).
    cbn [Vector2.x Vector2.y Tmul Tsub lift2].
    rewrite Hagree by (apply sample_in_support; assumption).
    apply IH. lia.
Qed.

(** A kernel whose values on the support lie between [lo] and [hi]
    accumulates a sum between [remaining * lo] and [remaining * hi]. *)
Lemma accumulate_bounds {F : Type} {Filter_F : Filter F} (f : F) (lo hi : R) :
  (forall x y : R, - xr <= x <= xr -> - yr <= y <= yr ->
     exists v : R, evaluate f (Fin x) (Fin y) = Fin v /\ lo <= v <= hi) ->
  forall (remaining i : nat) (r : R),
    (i + remaining <= sample_count)%nat ->
    exists s : R,
      accumulate hammersley_sequence f (Fin xr) (Fin yr) sample_count remaining i (Fin r)
      = Fin s
      /\ r + INR remaining * lo <= s <= r + INR remaining * hi.
Proof.
  intros Hrange. induction remaining as [| k IH]; intros i r Hi.
  - exists r. split; [reflexivity |]. simpl. lra.
  - cbn [accumulate].
    destruct (points_in_unit_square i ltac:(lia)) as (sx & sy & -> & Hsx & Hsy).
    cbn [Vector2.x Vector2.y Tmul Tsub lift2].
    destruct (Hrange (xr * (2 * sx - 1)) (yr * (2 * sy - 1)))
      as (v & -> & Hv); try (apply sample_in_support; assumption).
    cbn [Tadd lift2].
    destruct (IH (S i) (r + v) ltac:(lia)) as (s & Hs & Hbounds).
    exists s. split; [exact Hs |]. rewrite S_INR. lra.
Qed.

Lemma normalization_factor_bounds {F : Type} {Filter_F : Filter F}
    (f : F) (lo hi : R) :
  get_xradius f = Fin xr -> get_yradius f = Fin yr ->
  (1 <= sample_count)%nat ->
  (forall x y : R, - xr <= x <= xr -> - yr <= y <= yr ->
     exists v : R, evaluate f (Fin x) (Fin y) = Fin v /\ lo <= v <= hi) ->
  exists r : R,
    compute_normalization_factor hammersley_sequence f sample_count = Fin r
    /\ 4 * xr * yr * lo <= r <= 4 * xr * yr * hi.
Proof.
  intros Hxr Hyr Hn Hrange.
  destruct (accumulate_bounds f lo hi Hrange sample_count 0%nat 0 ltac:(lia))
    as (s & Hs & Hbounds).
  unfold compute_normalization_factor. rewrite Hxr, Hyr, Hs.
  cbn [Tmul lift2]. unfold static_cast.
  pose proof (INR_positive sample_count Hn) as Hne.
  assert (Hpos : 0 < INR sample_count)
    by (pose proof (pos_INR sample_count); lra).
  rewrite Tdiv_Fin by assumption.
  eexists. split; [reflexivity |].
  set (n := INR sample_count) in *.
  assert (Harea : 0 <= 4 * xr * yr) by nra.
  replace (4 * xr * yr * lo) with (n * lo * (4 * xr * yr) / n) by (field; lra).
  replace (4 * xr * yr * hi) with (n * hi * (4 * xr * yr) / n) by (field; lra).
  split; apply normalized_le; try assumption; nra.
Qed.

End EstimatorSupport.

(** [lanczos] is even in its second argument: storing tau or -tau gives the
    same kernel. *)
Lemma lanczos_opp_parameter (n rcp_tau : T) :
  LanczosFilter2.lanczos n (- rcp_tau)%T = LanczosFilter2.lanczos n rcp_tau.
Proof.
  unfold LanczosFilter2.lanczos.
  now rewrite Tmul_opp_r, sinc_opp.
Qed.

(** X13: the estimator evaluates the kernel only inside its support.  When
    the sample points of the indices below [sample_count] lie in the unit
    square and the radii are not negative, two filters with the same radii
    whose kernels agree on the support [-xradius, xradius] x
    [-yradius, yradius] get the same normalization factor, whatever they
    return outside. *)
Theorem normalization_depends_only_on_support :
  forall (hammersley_sequence : list nat -> nat -> nat -> Vector2.t)
         (F G : Type) (Filter_F : Filter F) (Filter_G : Filter G)
         (f : F) (g : G) (xr yr : R) (sample_count : nat),
    0 <= xr -> 0 <= yr ->
    get_xradius f = Fin xr -> get_yradius f = Fin yr ->
    get_xradius g = Fin xr -> get_yradius g = Fin yr ->
    (forall i : nat, (i < sample_count)%nat ->
       exists sx sy : R,
         hammersley_sequence Bases i sample_count = Vector2.make (Fin sx) (Fin sy)
         /\ 0 <= sx <= 1 /\ 0 <= sy <= 1) ->
    (forall x y : R, - xr <= x <= xr -> - yr <= y <= yr ->
       evaluate f (Fin x) (Fin y) = evaluate g (Fin x) (Fin y)) ->
    compute_normalization_factor hammersley_sequence f sample_count
    = compute_normalization_factor hammersley_sequence g sample_count.
Proof.
  intros hs F G Filter_F Filter_G f g xr yr n Hxr Hyr Hfx Hfy Hgx Hgy
         Hpoints Hagree.
  unfold compute_normalization_factor.
  rewrite Hfx, Hfy, Hgx, Hgy.
  rewrite (accumulate_agree hs xr yr n Hxr Hyr Hpoints f g Hagree n 0%nat (Fin 0))
    by lia.
  reflexivity.
Qed.

Lemma normalization_depends_only_on_support_witness :
  compute_normalization_factor hammersley_2d
    (LanczosFilter2.ctor (Fin 1) (Fin 1) (Fin 3)) 16
  = compute_normalization_factor hammersley_2d
      (LanczosFilter2.ctor (Fin 1) (Fin 1) (Fin (-3))) 16.
Proof.
  apply (normalization_depends_only_on_support hammersley_2d
           LanczosFilter2.t LanczosFilter2.t _ _
           (LanczosFilter2.ctor (Fin 1) (Fin 1) (Fin 3))
           (LanczosFilter2.ctor (Fin 1) (Fin 1) (Fin (-3))) 1 1 16);
    try lra; try reflexivity.
  - intros i Hi. now apply hammersley_2d_unit_square.
  - intros x y _ _. cbn [evaluate LanczosFilter2_Filter].
    rewrite !lanczos_evaluate_axes by lra.
    change (Fin (-3)) with (- Fin 3)%T.
    now rewrite !lanczos_opp_parameter.
Defined.



Lemma abs_within (a r : R) : - r <= a <= r -> Rabs a <= r.
Proof. apply Rabs_le. Qed.

Lemma abs_bound_interval (v b : R) : Rabs v <= b -> - b <= v <= b.
Proof.
  intros Hv. pose proof (Rle_abs v). pose proof (Rle_abs (- v)) as Hneg.
  rewrite Rabs_Ropp in Hneg. lra.
Qed.

(** X15: with positive radii, a sample sequence in the unit square and at
    least one sample, the normalization factor of the Triangle kernel lies
    between 0 and the area of the support, that of the Gaussian kernel
    (alpha > 0) between 0 and (1 - exp(-alpha))^2 times the area, and that
    of the Lanczos kernel (tau not 0) between minus the area and the
    area. *)
Theorem normalization_factor_of_kernels_bounded :
  forall (hammersley_sequence : list nat -> nat -> nat -> Vector2.t)
         (xr yr alpha tau : R) (sample_count : nat),
    0 < xr -> 0 < yr -> 0 < alpha -> tau <> 0 ->
    (1 <= sample_count)%nat ->
    (forall i : nat, (i < sample_count)%nat ->
       exists sx sy : R,
         hammersley_sequence Bases i sample_count = Vector2.make (Fin sx) (Fin sy)
         /\ 0 <= sx <= 1 /\ 0 <= sy <= 1) ->
    (exists r : R,
       compute_normalization_factor hammersley_sequence
         (TriangleFilter2.ctor (Fin xr) (Fin yr)) sample_count = Fin r
       /\ 0 <= r <= 4 * xr * yr)
    /\ (exists r : R,
          compute_normalization_factor hammersley_sequence
            (GaussianFilter2.ctor (Fin xr) (Fin yr) (Fin alpha)) sample_count
          = Fin r
          /\ 0 <= r <= 4 * xr * yr * (1 - exp (- alpha)) ^ 2)
    /\ (exists r : R,
          compute_normalization_factor hammersley_sequence
            (LanczosFilter2.ctor (Fin xr) (Fin yr) (Fin tau)) sample_count
          = Fin r
          /\ - (4 * xr * yr) <= r <= 4 * xr * yr).
Proof.
  intros hs xr yr alpha tau n Hxr Hyr Halpha Htau Hn Hpoints.
  assert (Hxr0 : 0 <= xr) by lra. assert (Hyr0 : 0 <= yr) by lra.
  split; [| split].
  - destruct (normalization_factor_bounds hs xr yr n Hxr0 Hyr0 Hpoints
                (TriangleFilter2.ctor (Fin xr) (Fin yr)) 0 1)
      as (r & Hr & Hbounds); try reflexivity; try assumption.
    + intros x y Hx Hy. cbn [evaluate TriangleFilter2_Filter].
      rewrite triangle_evaluate_formula by lra.
      eexists. split; [reflexivity |].
      pose proof (triangle_factor_range x xr Hxr (abs_within _ _ Hx)).
      pose proof (triangle_factor_range y yr Hyr (abs_within _ _ Hy)).
      split; nra.
    + exists r. split; [exact Hr | lra].
  - destruct (normalization_factor_bounds hs xr yr n Hxr0 Hyr0 Hpoints
                (GaussianFilter2.ctor (Fin xr) (Fin yr) (Fin alpha))
                0 ((1 - exp (- alpha)) ^ 2))
      as (r & Hr & Hbounds); try reflexivity; try assumption.
    + intros x y Hx Hy. cbn [evaluate GaussianFilter2_Filter].
      rewrite gaussian_evaluate_formula by lra.
      eexists. split; [reflexivity |].
      pose proof (gaussian_factor_range alpha x xr Halpha Hxr (abs_within _ _ Hx)).
      pose proof (gaussian_factor_range alpha y yr Halpha Hyr (abs_within _ _ Hy)).
      split; nra.
    + exists r. split; [exact Hr | lra].
  - destruct (normalization_factor_bounds hs xr yr n Hxr0 Hyr0 Hpoints
                (LanczosFilter2.ctor (Fin xr) (Fin yr) (Fin tau)) (-1) 1)
      as (r & Hr & Hbounds); try reflexivity; try assumption.
    + intros x y _ _. cbn [evaluate LanczosFilter2_Filter].
      rewrite lanczos_evaluate_axes by lra.
      destruct (lanczos_axis_bound (x / xr) tau Htau) as (vx & -> & Hvx).
      destruct (lanczos_axis_bound (y / yr) tau Htau) as (vy & -> & Hvy).
      exists (vx * vy). split; [reflexivity |].
      apply abs_bound_interval. rewrite Rabs_mult.
      pose proof (Rabs_pos vx). pose proof (Rabs_pos vy). nra.
    + exists r. split; [exact Hr | lra].
Qed.

Lemma normalization_factor_of_kernels_bounded_witness :
  exists r : R,
    compute_normalization_factor hammersley_2d
      (TriangleFilter2.ctor (Fin 2) (Fin 3)) default_sample_count = Fin r
    /\ 0 <= r <= 4 * 2 * 3.
Proof.
  destruct (normalization_factor_of_kernels_bounded hammersley_2d
              2 3 4 3 default_sample_count)
    as (Htriangle & _); try lra.
  - unfold default_sample_count. lia.
  - intros i Hi. now apply hammersley_2d_unit_square.
  - exact Htriangle.
Defined.

(** * Separability and scaling *)

Lemma Tmul_Undef_r (a : T) : (a * Undef)%T = Undef.
Proof. destruct a; reflexivity. Qed.

Lemma Tmul_one_split (a b : T) : (a * b)%T = ((a * Fin 1) * (Fin 1 * b))%T.
Proof.
  destruct a as [a |], b as [b |]; simpl; try reflexivity.
  f_equal. ring.
Qed.

Lemma lanczos_Undef (rcp_tau : T) : LanczosFilter2.lanczos Undef rcp_tau = Undef.
Proof.
  unfold LanczosFilter2.lanczos. rewrite Tmul_Undef_r.
  cbn [Teq]. unfold LanczosFilter2.sinc at 2. cbn [Tsin lift1 Tdiv].
  apply Tmul_Undef_r.
Qed.

(** The normalized coordinate of 0, and the per-axis values there. *)
Lemma normalized_zero (rcp : T) :
  (Fin 0 * rcp)%T = match rcp with Fin _ => Fin 0 | Undef => Undef end.
Proof.
  destruct rcp as [r |]; simpl; [f_equal; ring | reflexivity].
Qed.

(** X16: the Box, Triangle and Lanczos kernels are the product of their
    values along the two axes: for every filter object and all x, y,
    evaluate(x, y) = evaluate(x, 0) * evaluate(0, y). *)
Theorem kernels_separable :
  (forall (f : BoxFilter2.t) (x y : T),
     BoxFilter2.evaluate f x y
     = (BoxFilter2.evaluate f x (Fin 0) * BoxFilter2.evaluate f (Fin 0) y)%T)
  /\ (forall (f : TriangleFilter2.t) (x y : T),
        TriangleFilter2.evaluate f x y
        = (TriangleFilter2.evaluate f x (Fin 0)
           * TriangleFilter2.evaluate f (Fin 0) y)%T)
  /\ (forall (f : LanczosFilter2.t) (x y : T),
        LanczosFilter2.evaluate f x y
        = (LanczosFilter2.evaluate f x (Fin 0)
           * LanczosFilter2.evaluate f (Fin 0) y)%T).
Proof.
  split; [| split]; intros f x y.
  - unfold BoxFilter2.evaluate. simpl. f_equal. ring.
  - unfold TriangleFilter2.evaluate. rewrite !normalized_zero.
    destruct (Filter2.m_rcp_xradius (TriangleFilter2.base f)) as [rx |],
             (Filter2.m_rcp_yradius (TriangleFilter2.base f)) as [ry |];
      rewrite ?Tmul_Undef_r; cbn [Tabs Tsub lift1 lift2];
      rewrite ?Tmul_Undef_r; try reflexivity.
    rewrite Rabs_R0, Rminus_0_r. apply Tmul_one_split.
  - unfold LanczosFilter2.evaluate. rewrite !normalized_zero.
    destruct (Filter2.m_rcp_xradius (LanczosFilter2.base f)) as [rx |],
             (Filter2.m_rcp_yradius (LanczosFilter2.base f)) as [ry |];
      rewrite ?Tmul_Undef_r, ?lanczos_Undef, ?lanczos_zero, ?Tmul_Undef_r;
      try reflexivity.
    apply Tmul_one_split.
Qed.

Lemma scaled_coordinate (k a r : R) :
  k <> 0 -> r <> 0 -> k * a / (k * r) = a / r.
Proof. intros Hk Hr. field. split; assumption. Qed.

Lemma scaled_radius_nonzero (k r : R) : k <> 0 -> r <> 0 -> k * r <> 0.
Proof. intros Hk Hr. now apply Rmult_integral_contrapositive_currified. Qed.

(** The kernels depend on the point only through the normalized coordinates
    x / xradius and y / yradius. *)
Lemma triangle_scale_invariant (k xr yr x y : R) :
  k <> 0 -> xr <> 0 -> yr <> 0 ->
  TriangleFilter2.evaluate (TriangleFilter2.ctor (Fin (k * xr)) (Fin (k * yr)))
    (Fin (k * x)) (Fin (k * y))
  = TriangleFilter2.evaluate (TriangleFilter2.ctor (Fin xr) (Fin yr))
      (Fin x) (Fin y).
Proof.
  intros Hk Hx Hy.
  rewrite !triangle_evaluate_formula
    by (assumption || now apply scaled_radius_nonzero).
  now rewrite !scaled_coordinate by assumption.
Qed.

Lemma gaussian_scale_invariant (k xr yr alpha x y : R) :
  k <> 0 -> xr <> 0 -> yr <> 0 ->
  GaussianFilter2.evaluate
    (GaussianFilter2.ctor (Fin (k * xr)) (Fin (k * yr)) (Fin alpha))
    (Fin (k * x)) (Fin (k * y))
  = GaussianFilter2.evaluate
      (GaussianFilter2.ctor (Fin xr) (Fin yr) (Fin alpha)) (Fin x) (Fin y).
Proof.
  intros Hk Hx Hy.
  rewrite !gaussian_evaluate_formula
    by (assumption || now apply scaled_radius_nonzero).
  now rewrite !scaled_coordinate by assumption.
Qed.

Lemma mitchell_scale_invariant (k xr yr b c x y : R) :
  k <> 0 -> xr <> 0 -> yr <> 0 ->
  MitchellFilter2.evaluate
    (MitchellFilter2.ctor (Fin (k * xr)) (Fin (k * yr)) (Fin b) (Fin c))
    (Fin (k * x)) (Fin (k * y))
  = MitchellFilter2.evaluate
      (MitchellFilter2.ctor (Fin xr) (Fin yr) (Fin b) (Fin c)) (Fin x) (Fin y).
Proof.
  intros Hk Hx Hy.
  rewrite !mitchell_evaluate_axes
    by (assumption || now apply scaled_radius_nonzero).
  rewrite !scaled_coordinate by assumption.
  now rewrite !mitchell_per_axis_Fin.
Qed.

Lemma lanczos_scale_invariant (k xr yr : R) (tau : T) (x y : R) :
  k <> 0 -> xr <> 0 -> yr <> 0 ->
  LanczosFilter2.evaluate
    (LanczosFilter2.ctor (Fin (k * xr)) (Fin (k * yr)) tau)
    (Fin (k * x)) (Fin (k * y))
  = LanczosFilter2.evaluate
      (LanczosFilter2.ctor (Fin xr) (Fin yr) tau) (Fin x) (Fin y).
Proof.
  intros Hk Hx Hy.
  rewrite !lanczos_evaluate_axes
    by (assumption || now apply scaled_radius_nonzero).
  now rewrite !scaled_coordinate by assumption.
Qed.

Lemma power_of_two_nonzero (j : Z) : powerRZ 2 j <> 0.
Proof. apply powerRZ_NOR. lra. Qed.

(** X17: with non-zero radii, scaling the radii and the point by the same
    power of two leaves the weights of the Triangle, Gaussian,
    Mitchell-Netravali and Lanczos kernels unchanged: the weights depend on
    the point only through x / xradius and y / yradius. *)
Theorem kernels_scale_invariant :
  forall (j : Z) (xr yr x y alpha b c : R) (tau : T),
    let k := powerRZ 2 j in
    xr <> 0 -> yr <> 0 ->
    TriangleFilter2.evaluate
      (TriangleFilter2.ctor (Fin (k * xr)) (Fin (k * yr)))
      (Fin (k * x)) (Fin (k * y))
    = TriangleFilter2.evaluate (TriangleFilter2.ctor (Fin xr) (Fin yr))
        (Fin x) (Fin y)
    /\ GaussianFilter2.evaluate
         (GaussianFilter2.ctor (Fin (k * xr)) (Fin (k * yr)) (Fin alpha))
         (Fin (k * x)) (Fin (k * y))
       = GaussianFilter2.evaluate
           (GaussianFilter2.ctor (Fin xr) (Fin yr) (Fin alpha)) (Fin x) (Fin y)
    /\ MitchellFilter2.evaluate
         (MitchellFilter2.ctor (Fin (k * xr)) (Fin (k * yr)) (Fin b) (Fin c))
         (Fin (k * x)) (Fin (k * y))
       = MitchellFilter2.evaluate
           (MitchellFilter2.ctor (Fin xr) (Fin yr) (Fin b) (Fin c))
           (Fin x) (Fin y)
    /\ LanczosFilter2.evaluate
         (LanczosFilter2.ctor (Fin (k * xr)) (Fin (k * yr)) tau)
         (Fin (k * x)) (Fin (k * y))
       = LanczosFilter2.evaluate
           (LanczosFilter2.ctor (Fin xr) (Fin yr) tau) (Fin x) (Fin y).
Proof.
  intros j xr yr x y alpha b c tau k Hx Hy.
  pose proof (power_of_two_nonzero j) as Hk. fold k in Hk.
  split; [now apply triangle_scale_invariant |].
  split; [now apply gaussian_scale_invariant |].
  split; [now apply mitchell_scale_invariant |].
  now apply lanczos_scale_invariant.
Qed.

Lemma kernels_scale_invariant_witness :
  MitchellFilter2.evaluate
    (MitchellFilter2.ctor (Fin (powerRZ 2 3 * 2)) (Fin (powerRZ 2 3 * 4))
       (Fin (1 / 3)) (Fin (1 / 3)))
    (Fin (powerRZ 2 3 * 1)) (Fin (powerRZ 2 3 * (-1)))
  = MitchellFilter2.evaluate
      (MitchellFilter2.ctor (Fin 2) (Fin 4) (Fin (1 / 3)) (Fin (1 / 3)))
      (Fin 1) (Fin (-1)).
Proof.
  destruct (kernels_scale_invariant 3 2 4 1 (-1) 1 (1 / 3) (1 / 3) (Fin 2)
              ltac:(lra) ltac:(lra))
    as (_ & _ & Hmitchell & _).
  exact Hmitchell.
Defined.

Section EstimatorScaling.

Variable hammersley_sequence : list nat -> nat -> nat -> Vector2.t.

Context {F G : Type} {Filter_F : Filter F} {Filter_G : Filter G}.

Variables (f : F) (g : G) (k xr yr : R) (sample_count : nat).

Hypothesis points_are_numbers :
  forall i : nat, (i < sample_count)%nat ->
    exists sx sy : R,
      hammersley_sequence Bases i sample_count = Vector2.make (Fin sx) (Fin sy).

Hypothesis scaled_kernel :
  forall x y : R,
    evaluate f (Fin (k * x)) (Fin (k * y)) = evaluate g (Fin x) (Fin y).

(** With radii scaled by [k] the sample points are scaled by [k], so the
    two loops add the same weights. *)
Lemma accumulate_scaled :
  forall (remaining i : nat) (result : T),
    (i + remaining <= sample_count)%nat ->
    accumulate hammersley_sequence f (Fin (k * xr)) (Fin (k * yr))
      sample_count remaining i result
    = accumulate hammersley_sequence g (Fin xr) (Fin yr)
        sample_count remaining i result.
Proof.
  induction remaining as [| m IH]; intros i result Hi.
  - reflexivity.
  - cbn [accumulate].
    destruct (points_are_numbers i ltac:(lia)) as (sx & sy & ->).
    cbn [Vector2.x Vector2.y Tmul Tsub lift2].
    replace (k * xr * (2 * sx - 1)) with (k * (xr * (2 * sx - 1))) by ring.
    replace (k * yr * (2 * sy - 1)) with (k * (yr * (2 * sy - 1))) by ring.
    rewrite scaled_kernel. apply IH. lia.
Qed.

End EstimatorScaling.

(** X18: doubling the radii quadruples the normalization factor, and
    likewise for every power of two.  If the sample points of the indices
    below [sample_count] are numbers, k is a power of two, and filter f, of
    radii k * xradius and k * yradius, returns at (k*x, k*y) the weight that
    filter g, of radii xradius and yradius, returns at (x, y), then the
    factor of f is k * k times the factor of g (both undefined together). *)
Theorem normalization_factor_scales_with_area :
  forall (hammersley_sequence : list nat -> nat -> nat -> Vector2.t)
         (F G : Type) (Filter_F : Filter F) (Filter_G : Filter G)
         (f : F) (g : G) (j : Z) (xr yr : R) (sample_count : nat),
    let k := powerRZ 2 j in
    get_xradius f = Fin (k * xr) -> get_yradius f = Fin (k * yr) ->
    get_xradius g = Fin xr -> get_yradius g = Fin yr ->
    (forall i : nat, (i < sample_count)%nat ->
       exists sx sy : R,
         hammersley_sequence Bases i sample_count = Vector2.make (Fin sx) (Fin sy)) ->
    (forall x y : R,
       evaluate f (Fin (k * x)) (Fin (k * y)) = evaluate g (Fin x) (Fin y)) ->
    compute_normalization_factor hammersley_sequence f sample_count
    = (Fin (k * k)
       * compute_normalization_factor hammersley_sequence g sample_count)%T.
Proof.
  intros hs F G Filter_F Filter_G f g j xr yr n k Hfx Hfy Hgx Hgy Hpoints Hscaled.
  unfold compute_normalization_factor.
  rewrite Hfx, Hfy, Hgx, Hgy.
  rewrite (accumulate_scaled hs f g k xr yr n Hpoints Hscaled) by lia.
  destruct (accumulate hs g (Fin xr) (Fin yr) n n 0 (Fin 0)) as [s |];
    [| reflexivity].
  unfold static_cast. cbn [Tmul lift2]. unfold Tdiv.
  destruct (Req_dec_T (INR n) 0) as [Hz | Hnz]; [reflexivity |].
  cbn [lift2]. f_equal. field. assumption.
Qed.

Lemma normalization_factor_scales_with_area_witness :
  compute_normalization_factor hammersley_2d
    (TriangleFilter2.ctor (Fin (powerRZ 2 1 * 2)) (Fin (powerRZ 2 1 * 4))) 16
  = (Fin (powerRZ 2 1 * powerRZ 2 1)
     * compute_normalization_factor hammersley_2d
         (TriangleFilter2.ctor (Fin 2) (Fin 4)) 16)%T.
Proof.
  apply (normalization_factor_scales_with_area hammersley_2d
           TriangleFilter2.t TriangleFilter2.t _ _
           (TriangleFilter2.ctor (Fin (powerRZ 2 1 * 2)) (Fin (powerRZ 2 1 * 4)))
           (TriangleFilter2.ctor (Fin 2) (Fin 4)) 1 2 4 16);
    try reflexivity.
  - intros i Hi. apply hammersley_2d_defined. lia.
  - intros x y. cbn [evaluate TriangleFilter2_Filter].
    apply triangle_scale_invariant; try lra. apply power_of_two_nonzero.
Defined.
